(** * downloader_bot: the URL classifier, the format policy, the progress
    pipeline and the session registry of [main.go], embedded in Rocq.

    Go strings are byte sequences; they are modelled as [string] (a list of
    8-bit [ascii] values).  Go's [int], [int64] and [time.Duration] values are
    modelled as [Z], with the range checks the code performs written out;
    [int] has 64 bits.  [float64] arithmetic is modelled with the executable
    IEEE 754 binary64 operations of [SpecFloat].

    A function that talks to the messaging platform, to the external tool or
    to the file system is a [Run]: the list of the calls it makes and its
    result, which is [Panic] when a run-time panic ends it.  What the outside
    answers (errors, file sizes, message identifiers, clock readings) is an
    argument of the function.  Each goroutine is a run of its own.  The
    registry that the goroutines share is a Go map without a lock: where two
    goroutines write it, a write is two instants, and the flag by which the Go
    runtime detects concurrent writes is part of the model.

    Three things of the Go library are parameters: the Unicode case table
    beyond ASCII, the rendering of the verb [%.1f], and the value of [int(f)]
    for a float outside the range of [int]. *)

From Stdlib Require Import ZArith String Ascii List Lia SpecFloat.
From Stdlib Require Import DecimalString DecimalZ.
From stdpp Require Import gmap strings.

Open Scope string_scope.
Open Scope list_scope.
Open Scope Z_scope.

(** ** The parts of the Go standard library the program calls *)

Definition byte_val (c : ascii) : Z := Z.of_N (N_of_ascii c).

Definition byte_of (z : Z) : ascii := ascii_of_N (Z.to_N (z mod 256)).

Module utf8.

Definition RuneError : Z := 0xFFFD.
Definition RuneSelf : Z := 0x80.
Definition MaxRune : Z := 0x10FFFF.
Definition surrogateMin : Z := 0xD800.
Definition surrogateMax : Z := 0xDFFF.

Definition t2 : Z := 0xC0.
Definition t3 : Z := 0xE0.
Definition t4 : Z := 0xF0.
Definition tx : Z := 0x80.
Definition maskx : Z := 0x3F.
Definition mask2 : Z := 0x1F.
Definition mask3 : Z := 0x0F.
Definition mask4 : Z := 0x07.
Definition locb : Z := 0x80.
Definition hicb : Z := 0xBF.

Definition xx : Z := 0xF1.
Definition as_ : Z := 0xF0.
Definition s1 : Z := 0x02.
Definition s2 : Z := 0x13.
Definition s3 : Z := 0x03.
Definition s4 : Z := 0x23.
Definition s5 : Z := 0x34.
Definition s6 : Z := 0x04.
Definition s7 : Z := 0x44.

(** The table [first]: information about the first byte of an encoding. *)
Definition first (b : Z) : Z :=
  if b <? 0x80 then as_
  else if b <? 0xC2 then xx
  else if b <? 0xE0 then s1
  else if b =? 0xE0 then s2
  else if b <? 0xED then s3
  else if b =? 0xED then s4
  else if b <? 0xF0 then s3
  else if b =? 0xF0 then s5
  else if b <? 0xF4 then s6
  else if b =? 0xF4 then s7
  else xx.

(** The table [acceptRanges]: the range allowed for the second byte. *)
Definition acceptRanges (i : Z) : Z * Z :=
  if i =? 0 then (locb, hicb)
  else if i =? 1 then (0xA0, hicb)
  else if i =? 2 then (locb, 0x9F)
  else if i =? 3 then (0x90, hicb)
  else if i =? 4 then (locb, 0x8F)
  else (0, 0).

Definition byte_at (s : string) (i : nat) : Z :=
  match String.get i s with
  | Some c => byte_val c
  | None => 0
  end.

(** [utf8.DecodeRuneInString(s)]: the first rune of [s] and its width in
    bytes; an invalid encoding is [RuneError] of width 1. *)
Definition DecodeRuneInString (s : string) : Z * nat :=
  let n := Z.of_nat (String.length s) in
  if n <? 1 then (RuneError, 0%nat)
  else
    let b0 := byte_at s 0 in
    let x := first b0 in
    if as_ <=? x then
      (* the mask of the source is all ones for [xx] (odd), zero for [as] *)
      ((if Z.odd x then RuneError else b0), 1%nat)
    else
      let sz := Z.land x 7 in
      let accept := acceptRanges (Z.shiftr x 4) in
      if n <? sz then (RuneError, 1%nat)
      else
        let b1 := byte_at s 1 in
        if (b1 <? fst accept) || (snd accept <? b1) then (RuneError, 1%nat)
        else if sz <=? 2
        then (Z.lor (Z.shiftl (Z.land b0 mask2) 6) (Z.land b1 maskx), 2%nat)
        else
          let b2 := byte_at s 2 in
          if (b2 <? locb) || (hicb <? b2) then (RuneError, 1%nat)
          else if sz <=? 3
          then (Z.lor (Z.lor (Z.shiftl (Z.land b0 mask3) 12)
                             (Z.shiftl (Z.land b1 maskx) 6))
                      (Z.land b2 maskx), 3%nat)
          else
            let b3 := byte_at s 3 in
            if (b3 <? locb) || (hicb <? b3) then (RuneError, 1%nat)
            else (Z.lor (Z.lor (Z.lor (Z.shiftl (Z.land b0 mask4) 18)
                                      (Z.shiftl (Z.land b1 maskx) 12))
                               (Z.shiftl (Z.land b2 maskx) 6))
                        (Z.land b3 maskx), 4%nat).

Definition bytes3 (r : Z) : string :=
  String (byte_of (Z.lor t3 (Z.shiftr r 12)))
    (String (byte_of (Z.lor tx (Z.land (Z.shiftr r 6) maskx)))
       (String (byte_of (Z.lor tx (Z.land r maskx))) EmptyString)).

(** [utf8.AppendRune(nil, r)] for a rune [r >= 0]: the encoding of [r], or
    of [RuneError] when [r] is a surrogate or beyond [MaxRune]. *)
Definition EncodeRune (r : Z) : string :=
  if r <=? 0x7F then String (byte_of r) EmptyString
  else if r <=? 0x7FF then
    String (byte_of (Z.lor t2 (Z.shiftr r 6)))
      (String (byte_of (Z.lor tx (Z.land r maskx))) EmptyString)
  else if (MaxRune <? r) || ((surrogateMin <=? r) && (r <=? surrogateMax))
  then bytes3 RuneError
  else if r <=? 0xFFFF then bytes3 r
  else
    String (byte_of (Z.lor t4 (Z.shiftr r 18)))
      (String (byte_of (Z.lor tx (Z.land (Z.shiftr r 12) maskx)))
         (String (byte_of (Z.lor tx (Z.land (Z.shiftr r 6) maskx)))
            (String (byte_of (Z.lor tx (Z.land r maskx))) EmptyString))).

End utf8.

Module unicode.

Definition MaxASCII : Z := 0x7F.

(** [unicode.ToLower(r)].  ASCII is handled in the function itself; beyond
    ASCII the function consults the case tables of the Unicode database,
    which are taken as the parameter [lower_case]. *)
Definition ToLower (lower_case : Z -> Z) (r : Z) : Z :=
  if r <=? MaxASCII
  then (if (65 <=? r) && (r <=? 90) then r + 32 else r)
  else lower_case r.

End unicode.

Module strings.

(** [strings.HasPrefix(s, prefix)]. *)
Definition HasPrefix (s pre : string) : bool := String.prefix pre s.

(** [strings.Contains(s, substr)]: [substr] starts at some offset of [s]. *)
Fixpoint Contains (s substr : string) : bool :=
  String.prefix substr s ||
  match s with
  | EmptyString => false
  | String _ rest => Contains rest substr
  end.

Definition cons_field (c : ascii) (fields : list string) : list string :=
  match fields with
  | f :: fs => String c f :: fs
  | [] => [String c EmptyString]
  end.

(** [strings.Split(s, sep)] for a non-empty separator: [skip] counts the bytes
    of a separator occurrence that are still to be stepped over. *)
Fixpoint splitFrom (sep : string) (skip : nat) (s : string) : list string :=
  match s with
  | EmptyString => [EmptyString]
  | String c rest =>
      match skip with
      | S k => splitFrom sep k rest
      | O =>
          if String.prefix sep s
          then EmptyString :: splitFrom sep (Nat.pred (String.length sep)) rest
          else cons_field c (splitFrom sep O rest)
      end
  end.

Definition Split (s sep : string) : list string := splitFrom sep O s.

(** [strings.Map(mapping, s)]: every rune of [s] (an invalid byte counts as
    [RuneError]) is replaced by the encoding of its image, and dropped when
    the image is negative.  The builder that the Go function allocates only at
    the first rune that changes is not modelled: the prefix it copies
    unchanged consists of valid encodings of runes mapped to themselves. *)
Fixpoint mapFrom (mapping : Z -> Z) (skip : nat) (s : string) : string :=
  match s with
  | EmptyString => EmptyString
  | String _ rest =>
      match skip with
      | S k => mapFrom mapping k rest
      | O =>
          let (c, width) := utf8.DecodeRuneInString s in
          let r := mapping c in
          String.append (if 0 <=? r then utf8.EncodeRune r else EmptyString)
                        (mapFrom mapping (Nat.pred width) rest)
      end
  end.

Definition Map (mapping : Z -> Z) (s : string) : string := mapFrom mapping O s.

Fixpoint isASCII (s : string) : bool :=
  match s with
  | EmptyString => true
  | String c rest => (byte_val c <? utf8.RuneSelf) && isASCII rest
  end.

Definition lowerByte (c : ascii) : ascii :=
  let v := byte_val c in
  if (65 <=? v) && (v <=? 90) then byte_of (v + 32) else c.

Fixpoint lowerASCII (s : string) : string :=
  match s with
  | EmptyString => EmptyString
  | String c rest => String (lowerByte c) (lowerASCII rest)
  end.

(** [strings.ToLower(s)]: ASCII-only strings are lowered byte by byte, any
    other string goes through [Map(unicode.ToLower, s)]. *)
Definition ToLower (lower_case : Z -> Z) (s : string) : string :=
  if isASCII s then lowerASCII s else Map (unicode.ToLower lower_case) s.

End strings.

Module strconv.

Definition digit_val (c : ascii) : option Z :=
  let v := byte_val c in
  if (48 <=? v) && (v <=? 57) then Some (v - 48) else None.

(** The digit loop of [strconv.ParseUint] in base 10, without the range
    check (made by [ParseUint] below): any byte that is not a decimal digit,
    the underscore included, is a syntax error. *)
Fixpoint digits (acc : Z) (s : string) : option Z :=
  match s with
  | EmptyString => Some acc
  | String c rest =>
      match digit_val c with
      | Some d => digits (acc * 10 + d) rest
      | None => None
      end
  end.

(** [strconv.ParseUint(s, 10, 64)].  The program only tests [err != nil], so
    a syntax error and a range error are both [None]. *)
Definition ParseUint (s : string) : option Z :=
  match s with
  | EmptyString => None
  | _ =>
      match digits 0 s with
      | None => None
      | Some un => if un <? 2 ^ 64 then Some un else None
      end
  end.

(** [strconv.ParseInt(s, 10, 64)]: an optional sign, then [ParseUint], then
    the signed range check against the cutoff [1 << 63]. *)
Definition ParseInt (s : string) : option Z :=
  match s with
  | EmptyString => None
  | String s0 rest =>
      let neg := Ascii.eqb s0 "-" in
      let body := if Ascii.eqb s0 "+" || neg then rest else s in
      match ParseUint body with
      | None => None
      | Some un =>
          let cutoff := 2 ^ 63 in
          if negb neg && (cutoff <=? un) then None
          else if neg && (cutoff <? un) then None
          else Some (if neg then - un else un)
      end
  end.

End strconv.

Module float64.

Definition prec : Z := 53.
Definition emax : Z := 1024.

(** The conversion [float64(n)] of an integer: round to nearest, ties to
    even. *)
Definition of_int (n : Z) : spec_float := binary_normalize prec emax n 0 false.

Definition div : spec_float -> spec_float -> spec_float := SFdiv prec emax.
Definition mul : spec_float -> spec_float -> spec_float := SFmul prec emax.

(** The integer part of a finite float, rounding toward zero. *)
Definition trunc (f : spec_float) : option Z :=
  match f with
  | S754_zero _ => Some 0
  | S754_finite s m e =>
      let v := if 0 <=? e then Z.pos m * 2 ^ e else Z.pos m / 2 ^ (- e) in
      Some (if s then - v else v)
  | S754_infinity _ | S754_nan => None
  end.

Definition in_int64 (z : Z) : bool := (- 2 ^ 63 <=? z) && (z <? 2 ^ 63).

(** The conversion [int(f)] on a 64-bit target.  The fraction is discarded;
    when the value does not fit, Go leaves the result to the implementation,
    so it is taken from [out_of_range]. *)
Definition to_int (out_of_range : spec_float -> Z) (f : spec_float) : Z :=
  match trunc f with
  | Some z => if in_int64 z then z else out_of_range f
  | None => out_of_range f
  end.

End float64.

Module fmt.

(** The verb [%d] of [fmt.Sprintf] on an integer: its decimal digits, with a
    leading minus sign when negative. *)
Definition d (n : Z) : string := NilEmpty.string_of_int (Z.to_int n).

Definition newline : string := String (ascii_of_nat 10) EmptyString.

End fmt.

Module time.

Definition Second : Z := 1000000000.

(** [time.Since(t)] evaluated when the monotonic clock reads [now], in
    nanoseconds.  Both readings are exact integers here; the saturation of
    [time.Duration] at the ends of [int64] does not change a comparison with
    a few seconds. *)
Definition Since (t now : Z) : Z := now - t.

(** [d.Seconds()], as the library computes it. *)
Definition Seconds (d : Z) : spec_float :=
  let sec := Z.quot d Second in
  let nsec := Z.rem d Second in
  SFadd float64.prec float64.emax
    (float64.of_int sec)
    (float64.div (float64.of_int nsec) (float64.of_int 1000000000)).

(** [d.Seconds() >= n] for a whole number [n] of seconds.  The float sum of
    [Seconds] reaches [n] exactly when [d] holds at least [n] seconds (the
    whole seconds convert exactly and the fraction stays below 1), so the
    program's comparison is stated on the nanosecond count. *)
Definition Seconds_ge (d n : Z) : bool := n * Second <=? d.

End time.

(** ** Runs: the calls a function makes, and how it ends *)

Inductive Result (A : Type) : Type :=
| Ok (a : A)
| Panic.

Arguments Ok {A} a.
Arguments Panic {A}.

(** A run of a function that makes calls of type [E] to the outside: the
    calls in order, and the result ([Panic] when a run-time panic ends it). *)
Definition Run (E A : Type) : Type := (list E * Result A)%type.

Definition run_ret {E A : Type} (a : A) : Run E A := ([], Ok a).

Definition run_bind {E A B : Type} (f : A -> Run E B) (m : Run E A) : Run E B :=
  match m with
  | (tr, Ok a) => let (tr', r) := f a in (tr ++ tr', r)
  | (tr, Panic) => (tr, Panic)
  end.

#[global] Instance Run_MRet {E : Type} : MRet (Run E) := @run_ret E.
#[global] Instance Run_MBind {E : Type} : MBind (Run E) := @run_bind E.

Definition call {E : Type} (e : E) : Run E unit := ([e], Ok tt).

Definition panic {E A : Type} : Run E A := ([], Panic).

(** [defer e]: the call [e] is made when the body ends, also by a panic. *)
Definition defer {E A : Type} (e : E) (body : Run E A) : Run E A :=
  (fst body ++ [e], snd body).

Definition trace {E A : Type} (m : Run E A) : list E := fst m.
Definition result {E A : Type} (m : Run E A) : Result A := snd m.

(** ** [main.go] *)

Definition MaxFileSize : Z := 150 * 1024 * 1024.
Definition UpdateIntervalSec : Z := 3.

Record Download := {
  URL : string;
  Platform : string;
  Title : string;
  Thumbnail : string;
  Progress : Z;
  IsAudio : bool
}.

(** An inline keyboard: rows of buttons, each a label and its callback data. *)
Definition Keyboard : Type := list (list (string * string)).

(** The calls the program makes to the messaging platform, to the external
    tool and to the file system.  Every text is sent in Markdown mode. *)
Inductive Call :=
| SendMessage (chatID : Z) (text : string) (markup : option Keyboard)
| EditMessageText (chatID messageID : Z) (text : string)
| SendPhoto (chatID : Z) (fileURL : string) (replyTo : Z)
| SendVideo (chatID : Z) (filePath caption : string)
| SendAudio (chatID : Z) (filePath caption title : string)
| StartCommand (name : string) (args : list string)
| Remove (path : string).

(** What a download job meets outside the program. *)
Record JobEnv := {
  timestamp : Z;            (* time.Now().UnixNano() *)
  startErr : bool;          (* cmd.Start() returned an error *)
  waitErr : bool;           (* cmd.Wait() returned an error *)
  globFiles : list string;  (* the matches of filepath.Glob *)
  statSize : option Z;      (* os.Stat: the size, None on error *)
  sendErr : bool            (* bot.Send of the attachment returned an error *)
}.

(** A line read by the progress scanner, with the readings of the monotonic
    clock taken while it is handled. *)
Record Line := {
  line_text : string;
  since_clock : Z;   (* at time.Since(lastUpdateTime) *)
  now_clock : Z      (* at the time.Now() that follows bot.Send *)
}.

(** [getCacheKey] *)
Definition getCacheKey (chatID messageID : Z) : string :=
  fmt.d chatID +:+ ":" +:+ fmt.d messageID.

(** [getPlatformIcon] *)
Definition getPlatformIcon (platform : string) : string :=
  if String.eqb platform "YouTube" then "📺"
  else if String.eqb platform "Instagram" then "📷"
  else if String.eqb platform "Facebook" then "👤"
  else if String.eqb platform "TikTok" then "🎵"
  else "🔗".

(** [createDownloadKeyboard] *)
Definition createDownloadKeyboard (platform : string) : Keyboard :=
  if String.eqb platform "YouTube" then
    [ [("📹 360p", "video:360p"); ("📹 480p", "video:480p")];
      [("📹 720p", "video:720p")];
      [("🔊 Audio MP3", "audio:mp3")] ]
  else if String.eqb platform "Instagram" || String.eqb platform "Facebook" ||
          String.eqb platform "TikTok" then
    [ [("📹 Medium Quality Only", "video:medium")];
      [("🔊 Audio Only", "audio:mp3")] ]
  else
    [ [("📹 Best Quality", "video:best")];
      [("🔊 Audio Only", "audio:mp3")] ].

(** The slice expression [s[:hi]], which panics when [hi] is out of range. *)
Definition slice_to {E : Type} (s : string) (hi : Z) : Run E string :=
  if (0 <=? hi) && (hi <=? Z.of_nat (String.length s))
  then mret (String.substring 0 (Z.to_nat hi) s)
  else panic.

(** [truncateString] *)
Definition truncateString {E : Type} (s : string) (maxLen : Z) : Run E string :=
  if Z.of_nat (String.length s) <=? maxLen then mret s
  else
    front ← slice_to s (maxLen - 3);
    mret (front +:+ "...").

(** [isValidURL] *)
Definition isValidURL (url : string) : bool :=
  strings.HasPrefix url "http" &&
  (strings.Contains url "youtube.com" ||
   strings.Contains url "youtu.be" ||
   strings.Contains url "instagram.com" ||
   strings.Contains url "facebook.com" ||
   strings.Contains url "fb.com" ||
   strings.Contains url "tiktok.com").

(** The format selection of [handleVideoDownload]. *)
Definition videoFormatCode (platform quality : string) : string :=
  if String.eqb platform "YouTube" then
    if String.eqb quality "360p" then
      "18/bestvideo[height<=360]+bestaudio/best[height<=360]"
    else if String.eqb quality "480p" then
      "135+bestaudio/bestvideo[height<=480]+bestaudio/best[height<=480]"
    else if String.eqb quality "720p" then
      "22/136+bestaudio/bestvideo[height<=720]+bestaudio/best[height<=720]"
    else "best"
  else if String.eqb platform "Instagram" || String.eqb platform "Facebook" ||
          String.eqb platform "TikTok" then
    if String.eqb quality "medium" then "worst[ext=mp4]/worst"
    else "best[ext=mp4]/best"
  else "best".

(** The platform-specific options of both handlers. *)
Definition platformArgs (platform : string) : list string :=
  if String.eqb platform "Instagram" || String.eqb platform "Facebook"
  then ["--no-check-certificate"]
  else [].

Definition progressTemplate : string :=
  "%(progress.downloaded_bytes)s/%(progress.total_bytes)s".

(** The argument list [ytdlpArgs] of [handleVideoDownload]. *)
Definition videoArgs (info : Download) (quality : string) (ts : Z) : list string :=
  let videoOutput := "video_" +:+ fmt.d ts +:+ ".%(ext)s" in
  let formatCode := videoFormatCode (Platform info) quality in
  let ytdlpArgs :=
    ["-f"; formatCode;
     "--remux-video"; "mp4";
     "-o"; videoOutput;
     "--newline";
     "--progress-template"; progressTemplate;
     "--no-playlist"] in
  let ytdlpArgs := ytdlpArgs ++ platformArgs (Platform info) in
  ytdlpArgs ++ [URL info].

(** The argument list [ytdlpArgs] of [handleAudioDownload]. *)
Definition audioArgs (info : Download) (ts : Z) : list string :=
  let audioOutput := "audio_" +:+ fmt.d ts +:+ ".%(ext)s" in
  let ytdlpArgs :=
    ["-x";
     "--audio-format"; "mp3";
     "--audio-quality"; "0";
     "-o"; audioOutput;
     "--newline";
     "--progress-template"; progressTemplate;
     "--no-playlist"] in
  let ytdlpArgs := ytdlpArgs ++ platformArgs (Platform info) in
  ytdlpArgs ++ [URL info].

Section Program.

(** What [int(f)] yields on the target when [f] is outside the range of
    [int]. *)
Variable int_out_of_range : spec_float -> Z.

(** The lower-case mapping of the Unicode tables on runes beyond ASCII. *)
Variable lower_case : Z -> Z.

(** The verb [%.1f] of [fmt.Sprintf]. *)
Variable sprintf_1f : spec_float -> string.

(** [detectPlatform] *)
Definition detectPlatform (url : string) : string :=
  let lowerURL := strings.ToLower lower_case url in
  if strings.Contains lowerURL "youtube.com" || strings.Contains lowerURL "youtu.be"
  then "YouTube"
  else if strings.Contains lowerURL "instagram.com" ||
          strings.Contains lowerURL "instagr.am"
  then "Instagram"
  else if strings.Contains lowerURL "facebook.com" || strings.Contains lowerURL "fb.com" ||
          strings.Contains lowerURL "fb.watch"
  then "Facebook"
  else if strings.Contains lowerURL "tiktok.com" ||
          strings.Contains lowerURL "vm.tiktok.com"
  then "TikTok"
  else "Unknown".

(** The goroutine that [main] starts for a valid URL (the function literal
    of lines 93-126).  [chatID] is [update.Message.Chat.ID], the loop
    variable being taken per iteration; [fetched] is what [getVideoInfo]
    returned and [sentMsgID] the [MessageID] of the value returned by the
    [bot.Send] of the options message (0 when that call failed, its error
    being discarded).  The run returns the registry it leaves. *)
Definition main_func1 (chatID : Z) (url platform : string)
    (fetched : string * string) (sentMsgID : Z)
    (urlCache : gmap string Download) : Run Call (gmap string Download) :=
  let (title, thumbnail) := fetched in
  let info := {| URL := url; Platform := platform; Title := title;
                 Thumbnail := thumbnail; Progress := 0; IsAudio := false |} in
  let cacheKey := getCacheKey chatID 0 in
  let urlCache := <[cacheKey := info]> urlCache in
  let platformIcon := getPlatformIcon platform in
  shown ← truncateString (Title info) 200;
  call (SendMessage chatID
          (platformIcon +:+ " *" +:+ platform +:+ "*" +:+ fmt.newline +:+ fmt.newline +:+
           shown +:+ fmt.newline +:+ fmt.newline +:+ "Select download format:")
          (Some (createDownloadKeyboard platform)));;
  let newCacheKey := getCacheKey chatID sentMsgID in
  let urlCache := <[newCacheKey := info]> urlCache in
  let urlCache := delete cacheKey urlCache in
  (if negb (String.eqb thumbnail "")
   then call (SendPhoto chatID thumbnail sentMsgID)
   else mret tt);;
  mret urlCache.

(** [parseProgress]: a line of the form [downloaded/total]. *)
Definition parseProgress (line : string) : Z :=
  match strings.Split line "/" with
  | [p0; p1] =>
      match strconv.ParseInt p0, strconv.ParseInt p1 with
      | Some downloaded, Some total =>
          if total =? 0 then 0
          else float64.to_int int_out_of_range
                 (float64.mul
                    (float64.div (float64.of_int downloaded) (float64.of_int total))
                    (float64.of_int 100))
      | _, _ => 0
      end
  | _ => 0
  end.

(** The loop of [trackProgress] over the lines the scanner yields.  Each
    edit is recorded with the line that caused it. *)
Fixpoint trackLoop (chatID statusMsgID : Z) (title quality : string)
    (lastUpdateTime : Z) (lines : list Line) : Run (Line * Call) unit :=
  match lines with
  | [] => mret tt
  | l :: rest =>
      let progress := parseProgress (line_text l) in
      if (0 <? progress) &&
         time.Seconds_ge (time.Since lastUpdateTime (since_clock l)) UpdateIntervalSec
      then
        shown ← truncateString title 150;
        call (l, EditMessageText chatID statusMsgID
                   ("⏳ *Processing " +:+ quality +:+ " download*" +:+
                    fmt.newline +:+ fmt.newline +:+ shown +:+
                    fmt.newline +:+ fmt.newline +:+ fmt.d progress +:+ "% complete..."));;
        trackLoop chatID statusMsgID title quality (now_clock l) rest
      else trackLoop chatID statusMsgID title quality lastUpdateTime rest
  end.

(** [trackProgress]: [started] is the clock reading of the first
    [time.Now()], [lines] the lines read until the stream closes. *)
Definition trackProgress (chatID statusMsgID : Z) (lines : list Line)
    (title quality : string) (started : Z) : Run (Line * Call) unit :=
  let lastUpdateTime := started in
  trackLoop chatID statusMsgID title quality lastUpdateTime lines.

(** [handleVideoDownload].  The progress tracker runs in a goroutine of its
    own: its edits are the run of [trackProgress], not part of this one.
    Writes to the log are left out. *)
Definition handleVideoDownload (env : JobEnv) (chatID : Z) (info : Download)
    (quality : string) (statusMsgID : Z) : Run Call unit :=
  let ytdlpArgs := videoArgs info quality (timestamp env) in
  call (StartCommand "yt-dlp" ytdlpArgs);;
  if startErr env then
    call (SendMessage chatID "❌ Failed to start download process." None)
  else if waitErr env then
    call (SendMessage chatID "❌ Failed to download video." None)
  else
    match globFiles env with
    | [] =>
        call (SendMessage chatID "❌ No video file found after download completed." None)
    | videoFile :: _ =>
        defer (Remove videoFile)
          match statSize env with
          | None => panic
          | Some size =>
              let fileSizeMB := float64.div (float64.of_int size) (float64.of_int 1048576) in
              shown ← truncateString (Title info) 150;
              call (EditMessageText chatID statusMsgID
                      ("✅ *Download Complete!*" +:+ fmt.newline +:+ fmt.newline +:+
                       shown +:+ fmt.newline +:+ fmt.newline +:+
                       "Uploading to Telegram..."));;
              if MaxFileSize <? size then
                call (SendMessage chatID
                        ("⚠️ Video file (" +:+ sprintf_1f fileSizeMB +:+
                         " MB) exceeds Telegram's limit. Try a lower quality option.")
                        None)
              else
                short ← truncateString (Title info) 100;
                let caption :=
                  "📹 *" +:+ Platform info +:+ "* - " +:+ short +:+ fmt.newline +:+
                  "▫️ Quality: " +:+ quality +:+ fmt.newline +:+
                  "▫️ Size: " +:+ sprintf_1f fileSizeMB +:+ " MB" in
                call (SendVideo chatID videoFile caption);;
                if sendErr env then
                  call (SendMessage chatID
                          "❌ Failed to send video. File might be too large for Telegram."
                          None)
                else mret tt
          end
    end.

(** [handleAudioDownload] *)
Definition handleAudioDownload (env : JobEnv) (chatID : Z) (info : Download)
    (statusMsgID : Z) : Run Call unit :=
  let ytdlpArgs := audioArgs info (timestamp env) in
  call (StartCommand "yt-dlp" ytdlpArgs);;
  if startErr env then
    call (SendMessage chatID "❌ Failed to start audio extraction process." None)
  else if waitErr env then
    call (SendMessage chatID "❌ Failed to extract audio." None)
  else
    match globFiles env with
    | [] =>
        call (SendMessage chatID "❌ No audio file found after extraction completed." None)
    | audioFile :: _ =>
        defer (Remove audioFile)
          match statSize env with
          | None => panic
          | Some size =>
              let fileSizeMB := float64.div (float64.of_int size) (float64.of_int 1048576) in
              shown ← truncateString (Title info) 150;
              call (EditMessageText chatID statusMsgID
                      ("✅ *Audio Extraction Complete!*" +:+ fmt.newline +:+ fmt.newline +:+
                       shown +:+ fmt.newline +:+ fmt.newline +:+
                       "Uploading to Telegram..."));;
              if MaxFileSize <? size then
                call (SendMessage chatID
                        ("⚠️ Audio file (" +:+ sprintf_1f fileSizeMB +:+
                         " MB) exceeds Telegram's limit.")
                        None)
              else
                short ← truncateString (Title info) 100;
                let caption :=
                  "🎵 *" +:+ Platform info +:+ "* - " +:+ short +:+ fmt.newline +:+
                  "▫️ Format: MP3" +:+ fmt.newline +:+
                  "▫️ Size: " +:+ sprintf_1f fileSizeMB +:+ " MB" in
                call (SendAudio chatID audioFile caption (Title info));;
                if sendErr env then
                  call (SendMessage chatID
                          "❌ Failed to send audio. File might be too large for Telegram."
                          None)
                else mret tt
          end
    end.

End Program.

(** ** Reference definitions, in the words of the specification *)

(** The classifier as the specification words it: the scheme marker and the
    domain fragments are looked for without regard to case. *)
Definition isValidURL_any_case (lower_case : Z -> Z) (url : string) : bool :=
  isValidURL (strings.ToLower lower_case url).

(** The per-platform fragment sets of [detectPlatform], in its order. *)
Definition platformFragments : list (string * list string) :=
  [ ("YouTube", ["youtube.com"; "youtu.be"]);
    ("Instagram", ["instagram.com"; "instagr.am"]);
    ("Facebook", ["facebook.com"; "fb.com"; "fb.watch"]);
    ("TikTok", ["tiktok.com"; "vm.tiktok.com"]) ].

(** The fragments that [isValidURL] looks for. *)
Definition validFragments : list string :=
  ["youtube.com"; "youtu.be"; "instagram.com"; "facebook.com"; "fb.com"; "tiktok.com"].

(** First match wins: the first platform of the table one of whose fragments
    occurs in [lowered], [Unknown] when there is none. *)
Fixpoint firstMatch (table : list (string * list string)) (lowered : string) : string :=
  match table with
  | [] => "Unknown"
  | (platform, fragments) :: rest =>
      if existsb (strings.Contains lowered) fragments then platform
      else firstMatch rest lowered
  end.

(** A byte that lower-casing leaves alone: ASCII and not an upper-case
    letter. *)
Definition lowerFixed (c : ascii) : bool :=
  (byte_val c <? 128) && negb ((65 <=? byte_val c) && (byte_val c <=? 90)).

Fixpoint allLowerFixed (s : string) : bool :=
  match s with
  | EmptyString => true
  | String c rest => lowerFixed c && allLowerFixed rest
  end.

(** A letter in lower case, as the specification has it: each of the 26
    capital letters is replaced by its small form, every other byte is
    kept. *)
Definition smallLetter (c : ascii) : ascii :=
  match c with
  | "A" => "a" | "B" => "b" | "C" => "c" | "D" => "d" | "E" => "e" | "F" => "f"
  | "G" => "g" | "H" => "h" | "I" => "i" | "J" => "j" | "K" => "k" | "L" => "l"
  | "M" => "m" | "N" => "n" | "O" => "o" | "P" => "p" | "Q" => "q" | "R" => "r"
  | "S" => "s" | "T" => "t" | "U" => "u" | "V" => "v" | "W" => "w" | "X" => "x"
  | "Y" => "y" | "Z" => "z"
  | _ => c
  end%char.

(** The lowercased string of the specification. *)
Fixpoint lowercased (s : string) : string :=
  match s with
  | EmptyString => EmptyString
  | String c rest => String (smallLetter c) (lowercased rest)
  end.

(** [v] is a casing of [u]: the two differ at most in the case of their
    letters. *)
Definition casing_of (v u : string) : Prop := lowercased v = lowercased u.

(** Every rune of [s] beyond ASCII (an invalid byte counts as [RuneError])
    has a lower case beyond ASCII in the case table.  In the Unicode tables
    only U+0130 and U+212A fail this: their lower cases are the letters [i]
    and [k]. *)
Fixpoint lowersBeyondASCIIFrom (lower_case : Z -> Z) (skip : nat) (s : string) : bool :=
  match s with
  | EmptyString => true
  | String _ rest =>
      match skip with
      | S k => lowersBeyondASCIIFrom lower_case k rest
      | O =>
          let (r, width) := utf8.DecodeRuneInString s in
          ((r <=? unicode.MaxASCII) || (utf8.RuneSelf <=? lower_case r)) &&
          lowersBeyondASCIIFrom lower_case (Nat.pred width) rest
      end
  end.

Definition lowersBeyondASCII (lower_case : Z -> Z) (s : string) : bool :=
  lowersBeyondASCIIFrom lower_case O s.

(** No byte of [s] is ASCII. *)
Fixpoint allNonASCII (s : string) : bool :=
  match s with
  | EmptyString => true
  | String c rest => (utf8.RuneSelf <=? byte_val c) && allNonASCII rest
  end.

(** The first [k] bytes of [s] exist and are not ASCII. *)
Fixpoint nonASCIIprefix (k : nat) (s : string) : bool :=
  match k with
  | O => true
  | S k' =>
      match s with
      | EmptyString => false
      | String c rest => (128 <=? byte_val c) && nonASCIIprefix k' rest
      end
  end.

(** The number of characters of [s]: its Unicode code points, a byte that
    starts no valid encoding counting as one character (what
    [utf8.RuneCountInString] returns). *)
Fixpoint charactersFrom (skip : nat) (s : string) : Z :=
  match s with
  | EmptyString => 0
  | String _ rest =>
      match skip with
      | S k => charactersFrom k rest
      | O =>
          let (_, width) := utf8.DecodeRuneInString s in
          1 + charactersFrom (Nat.pred width) rest
      end
  end.

Definition characters (s : string) : Z := charactersFrom O s.

(** [s] is a sequence of valid UTF-8 encodings (what [utf8.ValidString]
    tests): no byte of it decodes as [RuneError] of width 1. *)
Fixpoint validFrom (skip : nat) (s : string) : bool :=
  match s with
  | EmptyString => true
  | String _ rest =>
      match skip with
      | S k => validFrom k rest
      | O =>
          let (r, width) := utf8.DecodeRuneInString s in
          negb ((r =? utf8.RuneError) && Nat.eqb width 1) &&
          validFrom (Nat.pred width) rest
      end
  end.

Definition validUTF8 (s : string) : bool := validFrom O s.

(** What the specification says of [truncateString s maxLen]: [s] itself
    when it has at most [maxLen] characters, otherwise a string of [maxLen]
    characters that ends in three dots. *)
Definition truncation_as_specified (s : string) (maxLen : Z) : Prop :=
  (characters s <= maxLen ->
   truncateString (E:=Call) s maxLen = ([], Ok s)) /\
  (maxLen < characters s ->
   exists front,
     truncateString (E:=Call) s maxLen = ([], Ok (front +:+ "...")) /\
     characters (front +:+ "...") = maxLen).

(** What the specification says of the registry once the goroutine of a
    valid URL has run: nothing under the provisional key, the session record
    under the key of the message that was sent. *)
Definition rekey_as_specified (chatID : Z) (url platform title thumbnail : string)
    (sentMsgID : Z) (urlCache : gmap string Download) : Prop :=
  exists registry,
    result (main_func1 chatID url platform (title, thumbnail) sentMsgID urlCache)
      = Ok registry /\
    registry !! getCacheKey chatID 0 = None /\
    registry !! getCacheKey chatID sentMsgID =
      Some {| URL := url; Platform := platform; Title := title;
              Thumbnail := thumbnail; Progress := 0; IsAudio := false |}.

(** The uploads of a produced file. *)
Definition isUpload (c : Call) : bool :=
  match c with
  | SendVideo _ _ _ | SendAudio _ _ _ _ => true
  | _ => false
  end.

(** ** What the progress tracker emitted *)

(** The lines for which the loop of [trackProgress] edited the status
    message, [last] being the clock reading it starts with. *)
Definition emitted_lines (int_out_of_range : spec_float -> Z)
    (chatID statusMsgID : Z) (title quality : string)
    (last : Z) (lines : list Line) : list Line :=
  map fst (trace (trackLoop int_out_of_range chatID statusMsgID title quality
                    last lines)).

(** The lines for which [trackProgress] edited the status message. *)
Definition updated_lines (int_out_of_range : spec_float -> Z)
    (chatID statusMsgID : Z) (lines : list Line) (title quality : string)
    (started : Z) : list Line :=
  map fst (trace (trackProgress int_out_of_range chatID statusMsgID lines
                    title quality started)).

(** The test that guards the edit in the loop of [trackProgress]. *)
Definition update_due (int_out_of_range : spec_float -> Z) (last : Z) (l : Line) : bool :=
  (0 <? parseProgress int_out_of_range (line_text l)) &&
  time.Seconds_ge (time.Since last (since_clock l)) UpdateIntervalSec.

(** Every update of [updates] was caused by a line of positive percent, read
    at least [UpdateIntervalSec] seconds after the clock reading kept from the
    update before it ([last] for the first one). *)
Fixpoint throttled (int_out_of_range : spec_float -> Z) (last : Z)
    (updates : list Line) : Prop :=
  match updates with
  | [] => True
  | l :: rest =>
      0 < parseProgress int_out_of_range (line_text l) /\
      last + UpdateIntervalSec * time.Second <= since_clock l /\
      throttled int_out_of_range (now_clock l) rest
  end.

(** The clock does not go back while a line is handled. *)
Definition clock_monotone (l : Line) : Prop := since_clock l <= now_clock l.

(** ** The registry under concurrent goroutines *)

(** [urlCache] is a plain Go map, written by the goroutines that [main]
    starts and by its loop, with no lock.  The two writes the program
    performs on it: an assignment and a [delete]. *)
Inductive RegOp :=
| Store (key : string) (info : Download)
| Drop (key : string).

Definition op_key (op : RegOp) : string :=
  match op with
  | Store key _ => key
  | Drop key => key
  end.

(** The effect of a write that was carried out alone. *)
Definition apply_op (urlCache : gmap string Download) (op : RegOp) :
    gmap string Download :=
  match op with
  | Store key info => <[key := info]> urlCache
  | Drop key => delete key urlCache
  end.

(** The registry after the writes [ops], each carried out alone and one
    after the other. *)
Definition apply_in_order (ops : list RegOp) (urlCache : gmap string Download) :
    gmap string Download :=
  fold_left apply_op ops urlCache.

(** The registry writes of [main_func1], in program order. *)
Definition main_func1_ops (chatID : Z) (info : Download) (sentMsgID : Z) : list RegOp :=
  [Store (getCacheKey chatID 0) info;
   Store (getCacheKey chatID sentMsgID) info;
   Drop (getCacheKey chatID 0)].

(** A write takes time: it is entered and, later, left.  Between the two
    instants of a write of one goroutine, another goroutine may run. *)
Inductive Instant :=
| Enter (op : RegOp)
| Leave (op : RegOp).

(** The instants of a goroutine that performs the writes [ops]. *)
Definition instants (ops : list RegOp) : list Instant :=
  flat_map (fun op => [Enter op; Leave op]) ops.

(** [interleaving mine others merged]: [merged] is made of the elements of
    [mine] and of [others], each list in its own order. *)
Inductive interleaving {A : Type} : list A -> list A -> list A -> Prop :=
| interleaving_nil : interleaving [] [] []
| interleaving_left (x : A) (mine others merged : list A) :
    interleaving mine others merged ->
    interleaving (x :: mine) others (x :: merged)
| interleaving_right (x : A) (mine others merged : list A) :
    interleaving mine others merged ->
    interleaving mine (x :: others) (x :: merged).

(** How a schedule of instants ends: with a registry, or with the process
    stopped by the Go runtime ([fatal error: concurrent map writes]). *)
Inductive Outcome :=
| Finished (urlCache : gmap string Download)
| ConcurrentMapWrites.

(** The map writes of the Go runtime ([mapassign], [mapdelete]) on a
    schedule of instants.  [writing] is the flag [hashWriting] of the map: a
    write that is entered while the flag is set stops the process; otherwise
    it sets the flag, and clears it when it is left, having changed the
    map.  A write that finds the flag cleared when it is left stops the
    process as well.  On an empty map [mapdelete] returns before it tests
    the flag, which is not modelled: the goroutines of the program enter
    their [delete] on a registry that is not empty
    ([drop_enters_nonempty]). *)
Fixpoint run_schedule (schedule : list Instant) (writing : bool)
    (urlCache : gmap string Download) : Outcome :=
  match schedule with
  | [] => Finished urlCache
  | Enter _ :: rest =>
      if writing then ConcurrentMapWrites
      else run_schedule rest true urlCache
  | Leave op :: rest =>
      if writing then run_schedule rest false (apply_op urlCache op)
      else ConcurrentMapWrites
  end.

(** The writes that a schedule leaves, in the order in which they are
    left. *)
Fixpoint completed (schedule : list Instant) : list RegOp :=
  match schedule with
  | [] => []
  | Enter _ :: rest => completed rest
  | Leave op :: rest => op :: completed rest
  end.

(** ** The rest of [main.go] *)

(** [getVideoInfo], given what [cmd.Output()] returned: the bytes of the
    tool's standard output and whether it reported an error.  The library
    function [strings.TrimSpace] is the parameter [TrimSpace]. *)
Definition getVideoInfo (TrimSpace : string -> string) (output : string)
    (err : bool) : string * string :=
  if err then ("Unknown Title", "")
  else
    let lines := strings.Split (TrimSpace output) fmt.newline in
    let title := match lines with l0 :: _ => l0 | [] => "" end in
    let thumbnail := match lines with _ :: l1 :: _ => l1 | _ => "" end in
    (title, thumbnail).

(** An update received from the messaging platform.  [command] is what
    [Message.Command()] returns.  [CallbackUpdate] is a callback query that
    carries the message of its button, [CallbackWithoutMessage] one whose
    [Message] is nil (the Bot API leaves the field out for a button of a
    message sent in inline mode).  The chat of a message is a required field
    of the Bot API and is taken as present. *)
Inductive Update :=
| MessageUpdate (chatID : Z) (command text : string)
| CallbackUpdate (callbackID : string) (chatID messageID : Z) (data : string)
| CallbackWithoutMessage (callbackID data : string)
| OtherUpdate.

(** What the body of the update loop does: calls to the platform, and the
    goroutines it starts. *)
Inductive LoopCall :=
| Bot (c : Call)
| AnswerCallback (callbackID text : string)
| EditTextClearKeyboard (chatID messageID : Z) (text : string)
| GoFetch (chatID : Z) (url platform : string)
| GoVideo (chatID : Z) (info : Download) (quality : string) (statusMsgID : Z)
| GoAudio (chatID : Z) (info : Download) (statusMsgID : Z).

Definition welcomeMessage : string :=
  "🚀 *Media Downloader*" +:+ fmt.newline +:+ fmt.newline +:+
  "Send any link from these platforms:" +:+ fmt.newline +:+
  "• YouTube" +:+ fmt.newline +:+
  "• Instagram " +:+ fmt.newline +:+
  "• Facebook" +:+ fmt.newline +:+
  "• TikTok" +:+ fmt.newline +:+ fmt.newline +:+
  "I'll download the video or audio for you!".

Definition set_IsAudio (info : Download) (isAudio : bool) : Download :=
  {| URL := URL info; Platform := Platform info; Title := Title info;
     Thumbnail := Thumbnail info; Progress := Progress info; IsAudio := isAudio |}.

(** One turn of the loop of [main] (lines 68-172).  [editedMsgID] is the
    [MessageID] of the value that [bot.Send] returned for the edit of the
    callback branch.  [GoFetch] starts the goroutine [main_func1]; [GoVideo]
    and [GoAudio] start the two handlers.  The run returns the registry.
    Line 135 reads [callback.Message.Chat.ID] without a test of
    [callback.Message]: on a callback without message the turn panics. *)
Definition main_update (lower_case : Z -> Z) (editedMsgID : Z) (update : Update)
    (urlCache : gmap string Download) : Run LoopCall (gmap string Download) :=
  match update with
  | MessageUpdate chatID command text =>
      if String.eqb command "start" then
        call (Bot (SendMessage chatID welcomeMessage None));;
        mret urlCache
      else if negb (String.eqb text "") then
        let url := text in
        if isValidURL url then
          let platform := detectPlatform lower_case url in
          call (GoFetch chatID url platform);;
          mret urlCache
        else
          call (Bot (SendMessage chatID
                  "📎 Please send a valid URL from YouTube, Instagram, Facebook, or TikTok"
                  None));;
          mret urlCache
      else mret urlCache
  | CallbackUpdate callbackID chatID messageID data =>
      let cacheKey := getCacheKey chatID messageID in
      match urlCache !! cacheKey with
      | Some info =>
          match strings.Split data ":" with
          | [format; quality] =>
              call (AnswerCallback callbackID "Processing download...");;
              let info := set_IsAudio info (String.eqb format "audio") in
              let urlCache := <[cacheKey := info]> urlCache in
              shown ← truncateString (Title info) 150;
              call (EditTextClearKeyboard chatID messageID
                      ("⏳ *Processing " +:+ quality +:+ " download*" +:+
                       fmt.newline +:+ fmt.newline +:+ shown +:+
                       fmt.newline +:+ fmt.newline +:+ "0% complete..."));;
              (if String.eqb format "video" then
                 call (GoVideo chatID info quality editedMsgID)
               else if String.eqb format "audio" then
                 call (GoAudio chatID info editedMsgID)
               else mret tt);;
              mret urlCache
          | _ => mret urlCache
          end
      | None => mret urlCache
      end
  | CallbackWithoutMessage _ _ => panic
  | OtherUpdate => mret urlCache
  end.

(** ** Observations on runs *)

Definition isTextMessage (c : Call) : bool :=
  match c with
  | SendMessage _ _ _ => true
  | _ => false
  end.

Definition isRemove (c : Call) : bool :=
  match c with
  | Remove _ => true
  | _ => false
  end.

Definition isGo (c : LoopCall) : bool :=
  match c with
  | GoFetch _ _ _ | GoVideo _ _ _ _ | GoAudio _ _ _ => true
  | _ => false
  end.

(** The number of calls of [tr] that satisfy [p]. *)
Definition countCalls (p : Call -> bool) (tr : list Call) : nat :=
  length (List.filter p tr).

(** The job produced a file that may be uploaded: the tool started and
    exited without error, a file was found, and its size is known and within
    the limit. *)
Definition deliverable (env : JobEnv) : bool :=
  negb (startErr env) && negb (waitErr env) &&
  match globFiles env, statSize env with
  | _ :: _, Some size => size <=? MaxFileSize
  | _, _ => false
  end.

(** The job ends in a panic: a file was found and [os.Stat] failed on it. *)
Definition stat_fails (env : JobEnv) : bool :=
  negb (startErr env) && negb (waitErr env) &&
  match globFiles env, statSize env with
  | _ :: _, None => true
  | _, _ => false
  end.

(** The file a job has to remove: the first match, when the tool ran. *)
Definition found_file (env : JobEnv) : option string :=
  if startErr env || waitErr env then None
  else match globFiles env with
       | f :: _ => Some f
       | [] => None
       end.

(** The number of occurrences of the byte [c] in [s]. *)
Fixpoint countByte (c : ascii) (s : string) : nat :=
  match s with
  | EmptyString => O
  | String x rest => ((if Ascii.eqb x c then 1 else 0) + countByte c rest)%nat
  end.

(** The bytes that [%d] prints: decimal digits and the minus sign. *)
Fixpoint allDecimal (s : string) : bool :=
  match s with
  | EmptyString => true
  | String c rest =>
      (((48 <=? byte_val c) && (byte_val c <=? 57)) || Ascii.eqb c "-") &&
      allDecimal rest
  end.

(** The last operation of [ops] on [key], if any. *)
Fixpoint last_on (key : string) (ops : list RegOp) : option RegOp :=
  match ops with
  | [] => None
  | op :: rest =>
      match last_on key rest with
      | Some later => Some later
      | None => if String.eqb (op_key op) key then Some op else None
      end
  end.

(** ** Sample inputs *)

(** The result of an out-of-range [int(f)] on amd64. *)
Definition sample_out_of_range : spec_float -> Z := fun _ => - 2 ^ 63.

Definition sample_info : Download :=
  {| URL := "https://www.instagram.com/reel/abc"; Platform := "Instagram";
     Title := "Sample Title"; Thumbnail := ""; Progress := 0; IsAudio := false |}.

(** A job whose tool ran and left one file of 200 MiB. *)
Definition sample_env : JobEnv :=
  {| timestamp := 1700000000000000000; startErr := false; waitErr := false;
     globFiles := ["video_1700000000000000000.mp4"];
     statSize := Some (200 * 1024 * 1024); sendErr := false |}.

(** Lines that arrive every half second for ten seconds, each reporting
    progress, handled in a millisecond. *)
Definition sample_lines : list Line :=
  map (fun i : nat =>
         {| line_text := "5000000/10000000";
            since_clock := 500000000 * Z.of_nat i;
            now_clock := 500000000 * Z.of_nat i + 1000000 |})
      (seq 0 21).

Fixpoint copies (n : nat) (s : string) : string :=
  match n with
  | O => EmptyString
  | S k => s +:+ copies k s
  end.

(** A title of 150 characters, each a letter of two bytes. *)
Definition sample_accented_title : string := copies 150 "é".

(** An excerpt of the lower-case table of Unicode: the capital letters of
    Latin-1, and the two runes beyond ASCII whose lower case is an ASCII
    letter. *)
Definition sample_lower_case (r : Z) : Z :=
  if r =? 0x130 then 0x69
  else if r =? 0x212A then 0x6B
  else if (0xC0 <=? r) && (r <=? 0xDE) && negb (r =? 0xD7) then r + 32
  else r.

(** * Properties *)

(** ** Runs *)

Lemma trace_call_bind {E A : Type} (e : E) (m : Run E A) :
  trace (call e ;; m) = e :: trace m.
Proof.
  unfold trace. change (call e ;; m) with (run_bind (fun _ : unit => m) (call e)).
  unfold run_bind, call. destruct m. reflexivity.
Qed.

Lemma bind_returned {E A B : Type} (m : Run E A) (a : A) (f : A -> Run E B) :
  m = ([], Ok a) -> m ≫= f = f a.
Proof.
  intros ->. change (([], Ok a) ≫= f) with (run_bind f (([], Ok a) : Run E A)).
  unfold run_bind. destruct (f a). reflexivity.
Qed.

(** ** Bytes and strings *)

Lemma byte_val_range (c : ascii) : 0 <= byte_val c < 256.
Proof.
  unfold byte_val. pose proof (N_ascii_bounded c). lia.
Qed.

Lemma byte_of_val (c : ascii) : byte_of (byte_val c) = c.
Proof.
  unfold byte_of. rewrite Z.mod_small by apply byte_val_range.
  unfold byte_val. rewrite N2Z.id. apply ascii_N_embedding.
Qed.

Lemma prefix_nil (s : string) : String.prefix "" s = true.
Proof. destruct s; reflexivity. Qed.

Lemma prefix_cons (a c : ascii) (f s : string) :
  String.prefix (String a f) (String c s) = true <-> a = c /\ String.prefix f s = true.
Proof.
  simpl. destruct (ascii_dec a c) as [->|Hne]; split; intros H.
  - split; [reflexivity | exact H].
  - apply H.
  - discriminate.
  - destruct H as [H _]. contradiction.
Qed.

Lemma Contains_nil (s : string) : strings.Contains s "" = true.
Proof. destruct s; reflexivity. Qed.

Lemma Contains_cons (c : ascii) (s f : string) :
  strings.Contains (String c s) f =
  String.prefix f (String c s) || strings.Contains s f.
Proof. reflexivity. Qed.

Lemma Contains_append_r (e s f : string) :
  strings.Contains s f = true -> strings.Contains (e +:+ s) f = true.
Proof.
  intros H. induction e as [|c e IH]; [exact H |].
  change (String c e +:+ s) with (String c (e +:+ s)).
  rewrite Contains_cons, IH. apply orb_true_r.
Qed.

Lemma lowerFixed_lowerByte (c : ascii) :
  lowerFixed c = true -> strings.lowerByte c = c.
Proof.
  unfold lowerFixed, strings.lowerByte. intros H.
  apply andb_true_iff in H as [_ H]. apply negb_true_iff in H.
  cbv zeta. rewrite H. reflexivity.
Qed.

(** ** [strings.ToLower] keeps every occurrence of a lower-case ASCII word *)

Lemma lowerASCII_prefix (f s : string) :
  allLowerFixed f = true -> String.prefix f s = true ->
  String.prefix f (strings.lowerASCII s) = true.
Proof.
  revert s. induction f as [|a f IH]; intros s Hf Hp.
  - apply prefix_nil.
  - destruct s as [|c s]; [discriminate |].
    apply prefix_cons in Hp as [-> Hp].
    simpl in Hf. apply andb_true_iff in Hf as [Hc Hf].
    cbn [strings.lowerASCII]. apply prefix_cons. split.
    + symmetry. apply lowerFixed_lowerByte, Hc.
    + apply IH; assumption.
Qed.

Lemma lowerASCII_Contains (f s : string) :
  allLowerFixed f = true -> strings.Contains s f = true ->
  strings.Contains (strings.lowerASCII s) f = true.
Proof.
  intros Hf. induction s as [|c s IH]; intros H.
  - exact H.
  - rewrite Contains_cons in H. apply orb_true_iff in H as [H|H].
    + apply (lowerASCII_prefix _ _ Hf) in H.
      destruct f; [apply Contains_nil |].
      cbn [strings.lowerASCII] in *. rewrite Contains_cons, H. reflexivity.
    + cbn [strings.lowerASCII]. rewrite Contains_cons, (IH H). apply orb_true_r.
Qed.

(** *** The UTF-8 decoder never takes an ASCII byte into a longer rune *)

Lemma byte_at_cons (c : ascii) (s : string) (i : nat) :
  utf8.byte_at (String c s) (S i) = utf8.byte_at s i.
Proof. reflexivity. Qed.

Lemma nonASCIIprefix_1 (s : string) :
  128 <= utf8.byte_at s 0 -> nonASCIIprefix 1 s = true.
Proof.
  destruct s as [|c s]; cbn; intros H; [lia |].
  rewrite andb_true_r. apply Z.leb_le, H.
Qed.

Lemma nonASCIIprefix_S (k : nat) (s : string) :
  128 <= utf8.byte_at s 0 ->
  (forall c r, s = String c r -> nonASCIIprefix k r = true) ->
  nonASCIIprefix (S k) s = true.
Proof.
  destruct s as [|c s]; cbn; intros H Hr; [lia |].
  apply andb_true_iff. split; [apply Z.leb_le, H | apply (Hr c s eq_refl)].
Qed.

Lemma nonASCIIprefix_2 (s : string) :
  128 <= utf8.byte_at s 0 -> 128 <= utf8.byte_at s 1 ->
  nonASCIIprefix 2 s = true.
Proof.
  intros H0 H1. apply nonASCIIprefix_S; [exact H0 |].
  intros c r ->. apply nonASCIIprefix_1. exact H1.
Qed.

Lemma nonASCIIprefix_3 (s : string) :
  128 <= utf8.byte_at s 0 -> 128 <= utf8.byte_at s 1 -> 128 <= utf8.byte_at s 2 ->
  nonASCIIprefix 3 s = true.
Proof.
  intros H0 H1 H2. apply nonASCIIprefix_S; [exact H0 |].
  intros c r ->. apply nonASCIIprefix_2; assumption.
Qed.

Ltac split_if :=
  match goal with
  | |- context [if ?b then _ else _] =>
      let E := fresh "E" in destruct b eqn:E
  end.

Lemma first_cases (b : Z) :
  In (utf8.first b)
     [utf8.as_; utf8.xx; utf8.s1; utf8.s2; utf8.s3; utf8.s4; utf8.s5; utf8.s6; utf8.s7].
Proof.
  unfold utf8.first. repeat split_if; cbn [In]; tauto.
Qed.

Lemma decode_ascii (c : ascii) (s : string) :
  byte_val c < 128 ->
  utf8.DecodeRuneInString (String c s) = (byte_val c, 1%nat).
Proof.
  intros Hc. unfold utf8.DecodeRuneInString.
  change (utf8.byte_at (String c s) 0) with (byte_val c).
  replace (Z.of_nat (String.length (String c s)) <? 1) with false
    by (symmetry; apply Z.ltb_ge; cbn [String.length]; lia).
  unfold utf8.first.
  replace (byte_val c <? 128) with true by (symmetry; apply Z.ltb_lt; exact Hc).
  reflexivity.
Qed.

(** The bytes that a rune takes after its first one are not ASCII. *)
Lemma decode_width (c : ascii) (s : string) :
  nonASCIIprefix (Nat.pred (snd (utf8.DecodeRuneInString (String c s)))) s = true.
Proof.
  unfold utf8.DecodeRuneInString.
  change (utf8.byte_at (String c s) 0) with (byte_val c).
  rewrite !byte_at_cons.
  generalize (Z.of_nat (String.length (String c s))). intros n.
  pose proof (first_cases (byte_val c)) as Hx.
  revert Hx. generalize (utf8.first (byte_val c)). intros x Hx.
  generalize (byte_val c). intros b0.
  destruct (n <? 1); [reflexivity |].
  cbn [In] in Hx.
  repeat (destruct Hx as [<- | Hx]; [| try contradiction]);
    vm_compute utf8.as_; vm_compute utf8.xx;
    vm_compute utf8.s1; vm_compute utf8.s2; vm_compute utf8.s3; vm_compute utf8.s4;
    vm_compute utf8.s5; vm_compute utf8.s6; vm_compute utf8.s7;
    cbv zeta;
    repeat match goal with
    | |- context [Z.land ?a 7] =>
        let v := eval vm_compute in (Z.land a 7) in change (Z.land a 7) with v
    | |- context [utf8.acceptRanges ?a] =>
        let v := eval vm_compute in (utf8.acceptRanges a) in
        change (utf8.acceptRanges a) with v
    | |- context [240 <=? ?a] =>
        let v := eval vm_compute in (240 <=? a) in change (240 <=? a) with v
    | |- context [?a <=? 2] =>
        let v := eval vm_compute in (a <=? 2) in change (a <=? 2) with v
    | |- context [?a <=? 3] =>
        let v := eval vm_compute in (a <=? 3) in change (a <=? 3) with v
    end;
    unfold utf8.locb, utf8.hicb; cbn [fst snd];
    try reflexivity;
    repeat (split_if; cbn [snd Nat.pred]; try reflexivity);
    repeat match goal with
    | H : (_ || _) = false |- _ => apply orb_false_iff in H as [? ?]
    | H : (_ <? _) = false |- _ => apply Z.ltb_ge in H
    end;
    first [ apply nonASCIIprefix_1 | apply nonASCIIprefix_2 | apply nonASCIIprefix_3 ];
    lia.
Qed.

Lemma unicode_ToLower_fixed (lower_case : Z -> Z) (c : ascii) :
  lowerFixed c = true -> unicode.ToLower lower_case (byte_val c) = byte_val c.
Proof.
  unfold lowerFixed, unicode.ToLower, unicode.MaxASCII. intros H.
  apply andb_true_iff in H as [Hlt Hup]. apply negb_true_iff in Hup.
  apply Z.ltb_lt in Hlt.
  replace (byte_val c <=? 127) with true by (symmetry; apply Z.leb_le; lia).
  rewrite Hup. reflexivity.
Qed.

(** A fixed byte at the head of the input is copied to the output. *)
Lemma mapFrom_fixed (lower_case : Z -> Z) (c : ascii) (s : string) :
  lowerFixed c = true ->
  strings.mapFrom (unicode.ToLower lower_case) O (String c s) =
  String c (strings.mapFrom (unicode.ToLower lower_case) O s).
Proof.
  intros Hc. cbn [strings.mapFrom].
  assert (Hlt : byte_val c < 128).
  { unfold lowerFixed in Hc. apply andb_true_iff in Hc as [Hc _].
    apply Z.ltb_lt, Hc. }
  rewrite (decode_ascii c s Hlt), (unicode_ToLower_fixed _ _ Hc).
  pose proof (byte_val_range c) as Hr.
  replace (0 <=? byte_val c) with true by (symmetry; apply Z.leb_le; lia).
  unfold utf8.EncodeRune.
  replace (byte_val c <=? 127) with true by (symmetry; apply Z.leb_le; lia).
  rewrite byte_of_val. reflexivity.
Qed.

Lemma mapFrom_prefix (lower_case : Z -> Z) (f s : string) :
  allLowerFixed f = true -> String.prefix f s = true ->
  String.prefix f (strings.mapFrom (unicode.ToLower lower_case) O s) = true.
Proof.
  revert s. induction f as [|a f IH]; intros s Hf Hp.
  - apply prefix_nil.
  - destruct s as [|c s]; [discriminate |].
    apply prefix_cons in Hp as [-> Hp].
    cbn [allLowerFixed] in Hf. apply andb_true_iff in Hf as [Hc Hf].
    rewrite (mapFrom_fixed _ _ _ Hc). apply prefix_cons. split; [reflexivity |].
    apply IH; assumption.
Qed.

(** An occurrence of a lower-case ASCII word survives [strings.Map] with
    [unicode.ToLower], wherever the decoder stands in the bytes before it. *)
Lemma mapFrom_Contains (lower_case : Z -> Z) (f : string) :
  allLowerFixed f = true ->
  forall (s : string) (k : nat),
    nonASCIIprefix k s = true ->
    strings.Contains s f = true ->
    strings.Contains (strings.mapFrom (unicode.ToLower lower_case) k s) f = true.
Proof.
  intros Hf. induction s as [|c s IH]; intros k Hk H.
  - destruct f; [apply Contains_nil | discriminate].
  - destruct f as [|a f]; [apply Contains_nil |].
    rewrite Contains_cons in H. apply orb_true_iff in H as [H|H].
    + (* the word starts here: its first byte is ASCII, so no rune is open *)
      pose proof H as Hp. apply prefix_cons in Hp as [<- _].
      cbn [allLowerFixed] in Hf. apply andb_true_iff in Hf as [Ha Hf'].
      destruct k as [|k].
      * pose proof (mapFrom_prefix lower_case (String a f) (String a s)) as Hm.
        cbn [allLowerFixed] in Hm. rewrite Ha, Hf' in Hm.
        specialize (Hm eq_refl H).
        rewrite (mapFrom_fixed _ _ _ Ha) in *.
        rewrite Contains_cons, Hm. reflexivity.
      * cbn [nonASCIIprefix] in Hk. apply andb_true_iff in Hk as [Hk _].
        apply Z.leb_le in Hk. unfold lowerFixed in Ha.
        apply andb_true_iff in Ha as [Ha _]. apply Z.ltb_lt in Ha. lia.
    + destruct k as [|k].
      * cbn [strings.mapFrom].
        pose proof (decode_width c s) as Hw.
        destruct (utf8.DecodeRuneInString (String c s)) as [r w].
        cbn [snd] in Hw. apply Contains_append_r. apply IH; assumption.
      * cbn [strings.mapFrom]. cbn [nonASCIIprefix] in Hk.
        apply andb_true_iff in Hk as [_ Hk]. apply IH; assumption.
Qed.

Lemma ToLower_Contains (lower_case : Z -> Z) (s f : string) :
  allLowerFixed f = true -> strings.Contains s f = true ->
  strings.Contains (strings.ToLower lower_case s) f = true.
Proof.
  intros Hf H. unfold strings.ToLower, strings.Map.
  destruct (strings.isASCII s).
  - apply lowerASCII_Contains; assumption.
  - apply mapFrom_Contains; [assumption | reflexivity | assumption].
Qed.

Lemma ToLower_prefix (lower_case : Z -> Z) (s f : string) :
  allLowerFixed f = true -> String.prefix f s = true ->
  String.prefix f (strings.ToLower lower_case s) = true.
Proof.
  intros Hf H. unfold strings.ToLower, strings.Map.
  destruct (strings.isASCII s).
  - apply lowerASCII_prefix; assumption.
  - apply mapFrom_prefix; assumption.
Qed.

(** ** [strings.ToLower] and the lowercased string of the specification *)

Lemma smallLetter_lowerByte (c : ascii) : smallLetter c = strings.lowerByte c.
Proof.
  destruct c as [[] [] [] [] [] [] [] []]; vm_compute; reflexivity.
Qed.

Lemma lowercased_lowerASCII (s : string) : strings.lowerASCII s = lowercased s.
Proof.
  induction s as [|c s IH]; [reflexivity |].
  cbn [strings.lowerASCII lowercased]. rewrite IH, smallLetter_lowerByte. reflexivity.
Qed.

(** *** Bit operations *)

Lemma lor_ge_l (a b : Z) : 0 <= a -> 0 <= b -> a <= Z.lor a b.
Proof.
  intros Ha Hb.
  assert (Hl : Z.lor a b = Z.lor a (Z.ldiff b a)).
  { apply Z.bits_inj'. intros n Hn. rewrite !Z.lor_spec, Z.ldiff_spec.
    destruct (Z.testbit a n), (Z.testbit b n); reflexivity. }
  assert (H0 : Z.land a (Z.ldiff b a) = 0)
    by (rewrite Z.land_comm; apply Z.land_ldiff).
  rewrite Hl, <- (Z.lxor_lor _ _ H0), <- (Z.add_nocarry_lxor _ _ H0).
  assert (0 <= Z.ldiff b a) by (apply Z.ldiff_nonneg; left; exact Hb).
  lia.
Qed.

Lemma lor_ge_r (a b : Z) : 0 <= a -> 0 <= b -> b <= Z.lor a b.
Proof. intros Ha Hb. rewrite Z.lor_comm. apply lor_ge_l; assumption. Qed.

Lemma lor_bound_l (k a b : Z) : 0 <= a -> 0 <= b -> k <= a -> k <= Z.lor a b.
Proof. intros Ha Hb Hk. pose proof (lor_ge_l a b Ha Hb). lia. Qed.

Lemma lor_bound_r (k a b : Z) : 0 <= a -> 0 <= b -> k <= b -> k <= Z.lor a b.
Proof. intros Ha Hb Hk. pose proof (lor_ge_r a b Ha Hb). lia. Qed.

Ltac euclid := Z.to_euclidean_division_equations; lia.

Ltac lor_nonneg :=
  repeat (apply Z.lor_nonneg; split); euclid.

Ltac lor_bound :=
  lazymatch goal with
  | |- _ <= Z.lor _ _ =>
      first [ apply lor_bound_l; [lor_nonneg | lor_nonneg | lor_bound]
            | apply lor_bound_r; [lor_nonneg | lor_nonneg | lor_bound] ]
  | |- _ => euclid
  end.

(** *** Runes beyond ASCII *)

Lemma byte_at_range (s : string) (i : nat) : 0 <= utf8.byte_at s i < 256.
Proof.
  unfold utf8.byte_at. destruct (String.get i s) as [c|]; [apply byte_val_range | lia].
Qed.

Lemma first_nonASCII (b : Z) :
  128 <= b ->
  utf8.first b = utf8.xx \/
  (utf8.first b = utf8.s1 /\ 194 <= b < 224) \/
  (utf8.first b = utf8.s2 /\ b = 224) \/
  (utf8.first b = utf8.s3 /\ (225 <= b < 237 \/ 238 <= b < 240)) \/
  (utf8.first b = utf8.s4 /\ b = 237) \/
  (utf8.first b = utf8.s5 /\ b = 240) \/
  (utf8.first b = utf8.s6 /\ 241 <= b < 244) \/
  (utf8.first b = utf8.s7 /\ b = 244).
Proof.
  intros Hb. unfold utf8.first.
  repeat split_if;
    repeat match goal with
    | H : (_ <? _) = false |- _ => apply Z.ltb_ge in H
    | H : (_ <? _) = true |- _ => apply Z.ltb_lt in H
    | H : (_ =? _) = true |- _ => apply Z.eqb_eq in H
    | H : (_ =? _) = false |- _ => apply Z.eqb_neq in H
    end;
    try lia; auto 12 with zarith.
  all: intuition lia.
Qed.

(** A byte beyond ASCII starts a rune beyond ASCII. *)
Lemma decode_nonASCII (c : ascii) (s : string) :
  128 <= byte_val c -> 128 <= fst (utf8.DecodeRuneInString (String c s)).
Proof.
  intros Hc. unfold utf8.DecodeRuneInString.
  change (utf8.byte_at (String c s) 0) with (byte_val c).
  rewrite !byte_at_cons.
  pose proof (byte_val_range c) as Hr.
  pose proof (byte_at_range s 0) as H1.
  pose proof (byte_at_range s 1) as H2.
  pose proof (byte_at_range s 2) as H3.
  revert H1 H2 H3.
  generalize (utf8.byte_at s 0) (utf8.byte_at s 1) (utf8.byte_at s 2).
  intros b1 b2 b3 H1 H2 H3.
  generalize (Z.of_nat (String.length (String c s))). intros n.
  pose proof (first_nonASCII (byte_val c) Hc) as Hx.
  revert Hc Hr Hx. generalize (utf8.first (byte_val c)) (byte_val c).
  intros x b0 Hc Hr Hx.
  destruct (n <? 1); [vm_compute; intros H; discriminate H |].
  destruct Hx as [-> | [[-> Hb] | [[-> Hb] | [[-> Hb] | [[-> Hb] | [[-> Hb] |
                  [[-> Hb] | [-> Hb]]]]]]]];
    vm_compute utf8.as_; vm_compute utf8.xx;
    vm_compute utf8.s1; vm_compute utf8.s2; vm_compute utf8.s3; vm_compute utf8.s4;
    vm_compute utf8.s5; vm_compute utf8.s6; vm_compute utf8.s7;
    cbv zeta;
    repeat match goal with
    | |- context [Z.land ?a 7] =>
        let v := eval vm_compute in (Z.land a 7) in change (Z.land a 7) with v
    | |- context [utf8.acceptRanges ?a] =>
        let v := eval vm_compute in (utf8.acceptRanges a) in
        change (utf8.acceptRanges a) with v
    | |- context [240 <=? ?a] =>
        let v := eval vm_compute in (240 <=? a) in change (240 <=? a) with v
    | |- context [Z.odd ?a] =>
        let v := eval vm_compute in (Z.odd a) in change (Z.odd a) with v
    | |- context [?a <=? 2] =>
        let v := eval vm_compute in (a <=? 2) in change (a <=? 2) with v
    | |- context [?a <=? 3] =>
        let v := eval vm_compute in (a <=? 3) in change (a <=? 3) with v
    end;
    unfold utf8.locb, utf8.hicb, utf8.RuneError, utf8.mask2, utf8.mask3,
      utf8.mask4, utf8.maskx; cbn [fst snd];
    repeat (split_if; cbn [fst]); try lia;
    repeat match goal with
    | H : (_ || _) = false |- _ => apply orb_false_iff in H as [? ?]
    | H : (_ <? _) = false |- _ => apply Z.ltb_ge in H
    end.
  all: try (vm_compute in E; discriminate E).
  all: change 31 with (Z.ones 5); change 15 with (Z.ones 4); change 7 with (Z.ones 3);
       change 63 with (Z.ones 6);
       rewrite ?Z.land_ones, ?Z.shiftl_mul_pow2 by lia;
       repeat match goal with
       | |- context [2 ^ ?k] =>
           let v := eval vm_compute in (2 ^ k) in change (2 ^ k) with v
       end.
  all: lor_bound.
Qed.

Lemma byte_val_of (z : Z) : byte_val (byte_of z) = z mod 256.
Proof.
  unfold byte_val, byte_of.
  assert (H : 0 <= z mod 256 < 256) by (apply Z.mod_pos_bound; lia).
  revert H. generalize (z mod 256). intros y H.
  rewrite N_ascii_embedding.
  - apply Z2N.id. lia.
  - apply N2Z.inj_lt. rewrite Z2N.id by lia. change (Z.of_N 256) with 256. lia.
Qed.

Lemma high_bit (z : Z) : Z.testbit z 7 = true -> 128 <= z mod 256.
Proof.
  intros H. change 256 with (2 ^ 8).
  rewrite <- (Z.mod_pow2_bits_low z 8 7) in H by lia.
  apply Z.testbit_true in H; [| lia].
  change (2 ^ 8) with 256 in *. change (2 ^ 7) with 128 in H.
  assert (Hy : 0 <= z mod 256 < 256) by (apply Z.mod_pos_bound; lia).
  revert H Hy. generalize (z mod 256). intros y H Hy.
  Z.to_euclidean_division_equations; lia.
Qed.

Lemma marked_byte (t v : Z) :
  Z.testbit t 7 = true -> 128 <= byte_val (byte_of (Z.lor t v)).
Proof.
  intros Ht. rewrite byte_val_of. apply high_bit.
  rewrite Z.lor_spec, Ht. reflexivity.
Qed.

(** The encoding of a rune beyond ASCII is not empty and has no ASCII
    byte. *)
Lemma EncodeRune_nonASCII (r : Z) :
  128 <= r ->
  exists b rest,
    utf8.EncodeRune r = String b rest /\ allNonASCII (String b rest) = true.
Proof.
  intros Hr. unfold utf8.EncodeRune, utf8.bytes3.
  replace (r <=? 127) with false by (symmetry; apply Z.leb_gt; lia).
  repeat split_if; eexists; eexists; (split; [reflexivity |]);
    cbn [allNonASCII]; unfold utf8.RuneSelf;
    rewrite ?andb_true_iff; repeat split;
    try (apply Z.leb_le, marked_byte; reflexivity).
Qed.

(** *** Occurrences of ASCII words *)

Lemma smallLetter_ascii (c : ascii) :
  (byte_val (smallLetter c) <? 128) = (byte_val c <? 128).
Proof.
  destruct c as [[] [] [] [] [] [] [] []]; vm_compute; reflexivity.
Qed.

Lemma isASCII_cons (a : ascii) (f : string) :
  strings.isASCII (String a f) = true -> byte_val a < 128 /\ strings.isASCII f = true.
Proof.
  cbn [strings.isASCII]. unfold utf8.RuneSelf. intros H.
  apply andb_true_iff in H as [Ha Hf]. apply Z.ltb_lt in Ha. split; assumption.
Qed.

(** An ASCII byte at the head of the input is lowered and copied to the
    output. *)
Lemma mapFrom_ascii (lower_case : Z -> Z) (c : ascii) (s : string) :
  byte_val c < 128 ->
  strings.mapFrom (unicode.ToLower lower_case) O (String c s) =
  String (strings.lowerByte c) (strings.mapFrom (unicode.ToLower lower_case) O s).
Proof.
  intros Hc. cbn [strings.mapFrom]. rewrite (decode_ascii c s Hc).
  pose proof (byte_val_range c) as Hr.
  unfold unicode.ToLower, unicode.MaxASCII, strings.lowerByte.
  replace (byte_val c <=? 127) with true by (symmetry; apply Z.leb_le; lia).
  destruct ((65 <=? byte_val c) && (byte_val c <=? 90)) eqn:Hup.
  - apply andb_true_iff in Hup as [H1 H2]. apply Z.leb_le in H1, H2.
    replace (0 <=? byte_val c + 32) with true by (symmetry; apply Z.leb_le; lia).
    unfold utf8.EncodeRune.
    replace (byte_val c + 32 <=? 127) with true by (symmetry; apply Z.leb_le; lia).
    reflexivity.
  - replace (0 <=? byte_val c) with true by (symmetry; apply Z.leb_le; lia).
    unfold utf8.EncodeRune.
    replace (byte_val c <=? 127) with true by (symmetry; apply Z.leb_le; lia).
    rewrite byte_of_val. reflexivity.
Qed.

(** A rune beyond ASCII at the head of the input, whose lower case is beyond
    ASCII: the output starts with bytes that are not ASCII. *)
Lemma mapFrom_nonASCII (lower_case : Z -> Z) (c : ascii) (s : string) :
  128 <= byte_val c ->
  lowersBeyondASCIIFrom lower_case O (String c s) = true ->
  exists b enc k,
    strings.mapFrom (unicode.ToLower lower_case) O (String c s) =
      String b enc +:+ strings.mapFrom (unicode.ToLower lower_case) k s /\
    allNonASCII (String b enc) = true /\
    lowersBeyondASCIIFrom lower_case k s = true.
Proof.
  intros Hc Hl. cbn [strings.mapFrom lowersBeyondASCIIFrom] in *.
  pose proof (decode_nonASCII c s Hc) as Hr.
  destruct (utf8.DecodeRuneInString (String c s)) as [r w]. cbn [fst] in Hr.
  apply andb_true_iff in Hl as [Hl Hrest].
  unfold unicode.MaxASCII, utf8.RuneSelf in Hl.
  apply orb_true_iff in Hl as [Hl | Hl]; [apply Z.leb_le in Hl; lia |].
  apply Z.leb_le in Hl.
  unfold unicode.ToLower, unicode.MaxASCII.
  replace (r <=? 127) with false by (symmetry; apply Z.leb_gt; lia).
  replace (0 <=? lower_case r) with true by (symmetry; apply Z.leb_le; lia).
  destruct (EncodeRune_nonASCII (lower_case r) Hl) as [b [enc [-> Henc]]].
  exists b, enc, (Nat.pred w). split; [reflexivity | split; assumption].
Qed.

Lemma prefix_lowercased_mapFrom (lower_case : Z -> Z) (f s : string) :
  strings.isASCII f = true -> String.prefix f (lowercased s) = true ->
  String.prefix f (strings.mapFrom (unicode.ToLower lower_case) O s) = true.
Proof.
  revert s. induction f as [|a f IH]; intros s Hf Hp.
  - apply prefix_nil.
  - destruct s as [|c s]; [discriminate |].
    cbn [lowercased] in Hp. apply prefix_cons in Hp as [Ha Hp].
    apply isASCII_cons in Hf as [Hlt Hf].
    assert (Hc : byte_val c < 128).
    { apply Z.ltb_lt. rewrite <- smallLetter_ascii, <- Ha. apply Z.ltb_lt, Hlt. }
    rewrite (mapFrom_ascii _ _ _ Hc). apply prefix_cons. split.
    + rewrite <- smallLetter_lowerByte. exact Ha.
    + apply IH; assumption.
Qed.

(** An occurrence of an ASCII word in the lowercased string is an occurrence
    in the output of [strings.Map] with [unicode.ToLower]. *)
Lemma Contains_lowercased_mapFrom (lower_case : Z -> Z) (f : string) :
  strings.isASCII f = true ->
  forall (s : string) (k : nat),
    nonASCIIprefix k s = true ->
    strings.Contains (lowercased s) f = true ->
    strings.Contains (strings.mapFrom (unicode.ToLower lower_case) k s) f = true.
Proof.
  intros Hf. induction s as [|c s IH]; intros k Hk H.
  - destruct f; [apply Contains_nil | discriminate].
  - destruct f as [|a f]; [apply Contains_nil |].
    cbn [lowercased] in H. rewrite Contains_cons in H.
    apply orb_true_iff in H as [H|H].
    + pose proof H as Hp. apply prefix_cons in Hp as [Ha _].
      pose proof (isASCII_cons _ _ Hf) as [Hlt _].
      assert (Hc : byte_val c < 128).
      { apply Z.ltb_lt. rewrite <- smallLetter_ascii, <- Ha. apply Z.ltb_lt, Hlt. }
      destruct k as [|k].
      * pose proof (prefix_lowercased_mapFrom lower_case (String a f) (String c s)
                      Hf H) as Hm.
        rewrite (mapFrom_ascii _ _ _ Hc) in *.
        rewrite Contains_cons, Hm. reflexivity.
      * cbn [nonASCIIprefix] in Hk. apply andb_true_iff in Hk as [Hk _].
        apply Z.leb_le in Hk. lia.
    + destruct k as [|k].
      * cbn [strings.mapFrom].
        pose proof (decode_width c s) as Hw.
        destruct (utf8.DecodeRuneInString (String c s)) as [r w].
        cbn [snd] in Hw. apply Contains_append_r. apply IH; assumption.
      * cbn [strings.mapFrom]. cbn [nonASCIIprefix] in Hk.
        apply andb_true_iff in Hk as [_ Hk]. apply IH; assumption.
Qed.

(** A word that starts with an ASCII byte does not start among bytes that
    are not ASCII. *)
Lemma Contains_after_nonASCII (x rest : string) (a : ascii) (f : string) :
  allNonASCII x = true -> byte_val a < 128 ->
  strings.Contains (x +:+ rest) (String a f) = true ->
  strings.Contains rest (String a f) = true.
Proof.
  intros Hx Ha. induction x as [|b x IH]; intros H; [exact H |].
  cbn [allNonASCII] in Hx. apply andb_true_iff in Hx as [Hb Hx].
  unfold utf8.RuneSelf in Hb. apply Z.leb_le in Hb.
  change (String b x +:+ rest) with (String b (x +:+ rest)) in H.
  rewrite Contains_cons in H. apply orb_true_iff in H as [H|H].
  - apply prefix_cons in H as [Hab _]. subst b. lia.
  - apply IH; assumption.
Qed.

Lemma lowersBeyondASCII_tail (lower_case : Z -> Z) (c : ascii) (s : string) :
  byte_val c < 128 ->
  lowersBeyondASCIIFrom lower_case O (String c s) = true ->
  lowersBeyondASCIIFrom lower_case O s = true.
Proof.
  intros Hc H. cbn [lowersBeyondASCIIFrom] in H.
  rewrite (decode_ascii c s Hc) in H. apply andb_true_iff in H as [_ H]. exact H.
Qed.

Lemma prefix_mapFrom_lowercased (lower_case : Z -> Z) (f s : string) :
  strings.isASCII f = true ->
  lowersBeyondASCIIFrom lower_case O s = true ->
  String.prefix f (strings.mapFrom (unicode.ToLower lower_case) O s) = true ->
  String.prefix f (lowercased s) = true.
Proof.
  revert s. induction f as [|a f IH]; intros s Hf Hl Hp.
  - apply prefix_nil.
  - apply isASCII_cons in Hf as [Hlt Hf].
    destruct s as [|c s]; [discriminate |].
    destruct (Z_lt_le_dec (byte_val c) 128) as [Hc | Hc].
    + rewrite (mapFrom_ascii _ _ _ Hc) in Hp. apply prefix_cons in Hp as [Ha Hp].
      cbn [lowercased]. apply prefix_cons. split.
      * rewrite smallLetter_lowerByte. exact Ha.
      * apply IH; [exact Hf | exact (lowersBeyondASCII_tail _ _ _ Hc Hl) | exact Hp].
    + destruct (mapFrom_nonASCII lower_case c s Hc Hl) as [b [enc [k [Hm [Henc _]]]]].
      rewrite Hm in Hp.
      change (String b enc +:+ ?t) with (String b (enc +:+ t)) in Hp.
      apply prefix_cons in Hp as [Hab _]. subst b.
      cbn [allNonASCII] in Henc. apply andb_true_iff in Henc as [Hb _].
      unfold utf8.RuneSelf in Hb. apply Z.leb_le in Hb. lia.
Qed.

(** When the runes beyond ASCII stay beyond ASCII, an occurrence of an ASCII
    word in the output of [strings.Map] with [unicode.ToLower] is an
    occurrence in the lowercased string. *)
Lemma Contains_mapFrom_lowercased (lower_case : Z -> Z) (a : ascii) (f : string) :
  strings.isASCII (String a f) = true ->
  forall (s : string) (k : nat),
    lowersBeyondASCIIFrom lower_case k s = true ->
    strings.Contains (strings.mapFrom (unicode.ToLower lower_case) k s) (String a f)
      = true ->
    strings.Contains (lowercased s) (String a f) = true.
Proof.
  intros Hf. pose proof (isASCII_cons _ _ Hf) as [Hlt _].
  induction s as [|c s IH]; intros k Hl H.
  - destruct k; discriminate H.
  - cbn [lowercased]. rewrite Contains_cons.
    destruct k as [|k].
    + destruct (Z_lt_le_dec (byte_val c) 128) as [Hc | Hc].
      * pose proof H as H'. rewrite (mapFrom_ascii _ _ _ Hc), Contains_cons in H'.
        apply orb_true_iff in H' as [Hp | Hrest].
        -- rewrite <- (mapFrom_ascii _ _ _ Hc) in Hp.
           apply (prefix_mapFrom_lowercased _ _ _ Hf Hl) in Hp.
           cbn [lowercased] in Hp. rewrite Hp. reflexivity.
        -- rewrite (IH O (lowersBeyondASCII_tail _ _ _ Hc Hl) Hrest).
           apply orb_true_r.
      * destruct (mapFrom_nonASCII lower_case c s Hc Hl) as [b [enc [k [Hm [Henc Hk]]]]].
        rewrite Hm in H. apply (Contains_after_nonASCII _ _ _ _ Henc Hlt) in H.
        rewrite (IH k Hk H). apply orb_true_r.
    + cbn [strings.mapFrom lowersBeyondASCIIFrom] in *.
      rewrite (IH k Hl H). apply orb_true_r.
Qed.

Lemma ToLower_Contains_lowercased (lower_case : Z -> Z) (s f : string) :
  strings.isASCII f = true ->
  strings.Contains (lowercased s) f = true ->
  strings.Contains (strings.ToLower lower_case s) f = true.
Proof.
  intros Hf H. unfold strings.ToLower, strings.Map.
  destruct (strings.isASCII s).
  - rewrite lowercased_lowerASCII. exact H.
  - apply Contains_lowercased_mapFrom; [assumption | reflexivity | assumption].
Qed.

(** [strings.ToLower] and the lowercased string of the specification hold
    the same ASCII words, when the runes beyond ASCII stay beyond ASCII. *)
Lemma ToLower_Contains_eq (lower_case : Z -> Z) (s : string) (a : ascii) (f : string) :
  lowersBeyondASCII lower_case s = true ->
  strings.isASCII (String a f) = true ->
  strings.Contains (strings.ToLower lower_case s) (String a f) =
  strings.Contains (lowercased s) (String a f).
Proof.
  intros Hl Hf.
  destruct (strings.Contains (lowercased s) (String a f)) eqn:Hc.
  - apply ToLower_Contains_lowercased; assumption.
  - destruct (strings.Contains (strings.ToLower lower_case s) (String a f)) eqn:Ht;
      [| reflexivity].
    rewrite <- Hc. symmetry.
    unfold strings.ToLower, strings.Map in Ht.
    destruct (strings.isASCII s).
    + rewrite lowercased_lowerASCII in Ht. exact Ht.
    + apply (Contains_mapFrom_lowercased lower_case a f Hf s O Hl Ht).
Qed.

(** ** The URL classifier *)

Lemma isValidURL_fragments (url : string) :
  isValidURL url =
  strings.HasPrefix url "http" && existsb (strings.Contains url) validFragments.
Proof.
  unfold isValidURL, validFragments. cbn [existsb].
  rewrite orb_false_r, !orb_assoc. reflexivity.
Qed.

(** The test of the code, case-sensitive as it is written. *)
Lemma isValidURL_iff (url : string) :
  isValidURL url = true <->
  String.prefix "http" url = true /\
  exists f, In f validFragments /\ strings.Contains url f = true.
Proof.
  rewrite isValidURL_fragments, andb_true_iff, existsb_exists. reflexivity.
Qed.

(** A string that does not start with [http] is invalid, whatever domain it
    names. *)
Lemma isValidURL_without_http (url : string) :
  String.prefix "http" url = false -> isValidURL url = false.
Proof.
  intros H. unfold isValidURL, strings.HasPrefix. rewrite H. reflexivity.
Qed.

(** So is a string that does not start with [http] in any casing. *)
Lemma isValidURL_without_http_any_case (lower_case : Z -> Z) (url : string) :
  String.prefix "http" (strings.ToLower lower_case url) = false ->
  isValidURL url = false.
Proof.
  intros H. apply isValidURL_without_http.
  destruct (String.prefix "http" url) eqn:Hp; [| reflexivity].
  rewrite (ToLower_prefix lower_case url "http" eq_refl Hp) in H. discriminate H.
Qed.

Lemma validFragments_lower (f : string) :
  In f validFragments -> allLowerFixed f = true.
Proof.
  cbn [In validFragments]. intros H.
  repeat (destruct H as [<- | H]; [reflexivity |]). contradiction.
Qed.

(** What the code accepts, the case-insensitive test accepts as well. *)
Lemma isValidURL_any_case_complete (lower_case : Z -> Z) (url : string) :
  isValidURL url = true -> isValidURL_any_case lower_case url = true.
Proof.
  unfold isValidURL_any_case. rewrite !isValidURL_iff.
  intros [Hp [f [Hin Hc]]]. split.
  - apply ToLower_prefix; [reflexivity | exact Hp].
  - exists f. split; [exact Hin |].
    apply ToLower_Contains; [apply validFragments_lower, Hin | exact Hc].
Qed.

(** C1.  The specification makes the classifier case-insensitive in the
    scheme marker and in the domain fragment.  [isValidURL] compares bytes as
    they come: a YouTube URL whose domain is written with capitals is
    rejected by the code and accepted by the case-insensitive test, and so
    is one whose scheme starts with a capital. *)
Theorem isValidURL_rejects_upper_case (lower_case : Z -> Z) :
  isValidURL "https://www.YouTube.com/watch?v=abc" = false /\
  isValidURL_any_case lower_case "https://www.YouTube.com/watch?v=abc" = true /\
  isValidURL "Https://youtu.be/abc" = false /\
  isValidURL_any_case lower_case "Https://youtu.be/abc" = true.
Proof.
  repeat split; vm_compute; reflexivity.
Qed.

(** ** Platform detection *)

Lemma detectPlatform_firstMatch (lower_case : Z -> Z) (url : string) :
  detectPlatform lower_case url =
  firstMatch platformFragments (strings.ToLower lower_case url).
Proof.
  unfold detectPlatform, platformFragments. cbv zeta.
  cbn [firstMatch existsb]. rewrite !orb_false_r, !orb_assoc. reflexivity.
Qed.

Lemma firstMatch_none (table : list (string * list string)) (lowered : string) :
  (forall platform fragments, In (platform, fragments) table ->
     existsb (strings.Contains lowered) fragments = false) ->
  firstMatch table lowered = "Unknown".
Proof.
  induction table as [|[p fs] table IH]; intros H; [reflexivity |].
  cbn [firstMatch]. rewrite (H p fs) by (left; reflexivity).
  apply IH. intros p' fs' Hin. apply (H p' fs'). right. exact Hin.
Qed.

Lemma detectPlatform_youtube (lower_case : Z -> Z) (url : string) :
  strings.Contains (strings.ToLower lower_case url) "youtube.com" = true ->
  detectPlatform lower_case url = "YouTube".
Proof.
  intros H. unfold detectPlatform. cbv zeta. rewrite H. reflexivity.
Qed.

Lemma not_lowercased (lower_case : Z -> Z) (url f : string) :
  strings.isASCII f = true ->
  strings.Contains (strings.ToLower lower_case url) f = false ->
  strings.Contains (lowercased url) f = false.
Proof.
  intros Hf H. destruct (strings.Contains (lowercased url) f) eqn:E; [| reflexivity].
  rewrite (ToLower_Contains_lowercased lower_case url f Hf E) in H. discriminate H.
Qed.

Lemma Contains_lowercased (f s : string) :
  allLowerFixed f = true -> strings.Contains s f = true ->
  strings.Contains (lowercased s) f = true.
Proof.
  intros Hf H. rewrite <- lowercased_lowerASCII.
  apply lowerASCII_Contains; assumption.
Qed.

(** A fragment of the platform at position [n] of the table that occurs in
    the lowercased string is never passed over for a later platform. *)
Lemma detectPlatform_at_or_before (lower_case : Z -> Z) (url : string)
    (n : nat) (platform : string) (fragments : list string) :
  nth_error platformFragments n = Some (platform, fragments) ->
  existsb (strings.Contains (lowercased url)) fragments = true ->
  In (detectPlatform lower_case url) (map fst (firstn (S n) platformFragments)).
Proof.
  intros Hn Hc. unfold platformFragments in *.
  destruct n as [|[|[|[|n]]]]; cbn [nth_error] in Hn;
    [| | | | destruct n; discriminate Hn];
    injection Hn as <- <-;
    cbn [existsb] in Hc; rewrite ?orb_false_r in Hc;
    repeat match type of Hc with
    | (_ || _) = true => apply orb_true_iff in Hc as [Hc | Hc]
    end;
    apply (ToLower_Contains_lowercased lower_case) in Hc; try reflexivity;
    unfold detectPlatform; cbv zeta; rewrite Hc, ?orb_true_r;
    cbn [map fst firstn orb];
    repeat split_if; cbn [In]; tauto.
Qed.


(** The two runes beyond ASCII whose lower case is an ASCII letter are read
    as that letter by [strings.ToLower]: with the Kelvin sign in the place of
    the letter K, the fragment [tiktok.com] is found in the string that the
    function lowercased, though the bytes of the URL do not spell it. *)
Lemma detectPlatform_kelvin_sign :
  lowersBeyondASCII sample_lower_case "https://tiKtok.com/v" = false /\
  detectPlatform sample_lower_case "https://tiKtok.com/v" = "TikTok" /\
  firstMatch platformFragments (lowercased "https://tiKtok.com/v") = "Unknown".
Proof. repeat split; vm_compute; reflexivity. Qed.

(** C9.  A string that [isValidURL] accepts is given one of the four
    platforms by [detectPlatform], never [Unknown]: each fragment the
    validation looks for belongs to the fragment set of a platform. *)
Theorem valid_url_has_platform (lower_case : Z -> Z) (url : string) :
  isValidURL url = true ->
  In (detectPlatform lower_case url) ["YouTube"; "Instagram"; "Facebook"; "TikTok"] /\
  detectPlatform lower_case url <> "Unknown" /\
  (forall f, In f validFragments ->
     exists platform fragments,
       In (platform, fragments) platformFragments /\ In f fragments).
Proof.
  intros Hv. apply isValidURL_iff in Hv as [_ [f [Hin Hc]]].
  assert (Hl : strings.Contains (strings.ToLower lower_case url) f = true)
    by (apply ToLower_Contains; [apply validFragments_lower, Hin | exact Hc]).
  assert (Hplat : In (detectPlatform lower_case url)
                     ["YouTube"; "Instagram"; "Facebook"; "TikTok"]).
  { unfold detectPlatform. cbv zeta.
    set (l := strings.ToLower lower_case url) in *.
    cbn [In validFragments] in Hin.
    repeat (destruct Hin as [<- | Hin]; [rewrite ?Hl, ?orb_true_r; cbn [orb] |]);
      [.. | contradiction];
      repeat split_if; cbn [In]; tauto. }
  split; [exact Hplat | split].
  - intros Hu. rewrite Hu in Hplat. cbn [In] in Hplat.
    repeat (destruct Hplat as [Hplat | Hplat]; [discriminate Hplat |]). contradiction.
  - clear. intros f Hin. cbn [In validFragments] in Hin.
    destruct Hin as [<- | [<- | [<- | [<- | [<- | [<- | []]]]]]];
      [ exists "YouTube", ["youtube.com"; "youtu.be"]
      | exists "YouTube", ["youtube.com"; "youtu.be"]
      | exists "Instagram", ["instagram.com"; "instagr.am"]
      | exists "Facebook", ["facebook.com"; "fb.com"; "fb.watch"]
      | exists "Facebook", ["facebook.com"; "fb.com"; "fb.watch"]
      | exists "TikTok", ["tiktok.com"; "vm.tiktok.com"] ];
      split; cbn [In platformFragments]; auto 10.
Qed.

(** ** Truncation *)

Lemma length_append (a b : string) :
  String.length (a +:+ b) = (String.length a + String.length b)%nat.
Proof.
  induction a as [|c a IH]; [reflexivity |].
  change (String c a +:+ b) with (String c (a +:+ b)).
  cbn [String.length]. rewrite IH. reflexivity.
Qed.

Lemma length_substring0 (n : nat) (s : string) :
  (n <= String.length s)%nat -> String.length (String.substring 0 n s) = n.
Proof.
  revert s. induction n as [|n IH]; intros s H.
  - destruct s; reflexivity.
  - destruct s as [|c s]; cbn [String.length] in H; [lia |].
    cbn [String.substring String.length]. rewrite IH by lia. reflexivity.
Qed.

Lemma truncateString_fits (E : Type) (s : string) (maxLen : Z) :
  Z.of_nat (String.length s) <= maxLen ->
  truncateString (E:=E) s maxLen = ([], Ok s).
Proof.
  intros H. unfold truncateString.
  replace (Z.of_nat (String.length s) <=? maxLen) with true
    by (symmetry; apply Z.leb_le, H).
  reflexivity.
Qed.

Lemma truncateString_cut (E : Type) (s : string) (maxLen : Z) :
  maxLen < Z.of_nat (String.length s) -> 3 <= maxLen ->
  truncateString (E:=E) s maxLen =
  ([], Ok (String.substring 0 (Z.to_nat (maxLen - 3)) s +:+ "...")).
Proof.
  intros Hlong Hcap. unfold truncateString, slice_to.
  replace (Z.of_nat (String.length s) <=? maxLen) with false
    by (symmetry; apply Z.leb_gt, Hlong).
  replace ((0 <=? maxLen - 3) && (maxLen - 3 <=? Z.of_nat (String.length s)))
    with true
    by (symmetry; apply andb_true_iff; split; apply Z.leb_le; lia).
  reflexivity.
Qed.

Lemma truncateString_panics (E : Type) (s : string) (maxLen : Z) :
  maxLen < Z.of_nat (String.length s) -> maxLen < 3 ->
  truncateString (E:=E) s maxLen = ([], Panic).
Proof.
  intros Hlong Hcap. unfold truncateString, slice_to.
  replace (Z.of_nat (String.length s) <=? maxLen) with false
    by (symmetry; apply Z.leb_gt, Hlong).
  replace (0 <=? maxLen - 3) with false by (symmetry; apply Z.leb_gt; lia).
  reflexivity.
Qed.

(** With a cap of at least 3 the function returns, and makes no call. *)
Lemma truncateString_returns (E : Type) (s : string) (maxLen : Z) :
  3 <= maxLen -> exists t, truncateString (E:=E) s maxLen = ([], Ok t).
Proof.
  intros Hcap. destruct (Z_le_gt_dec (Z.of_nat (String.length s)) maxLen).
  - exists s. apply truncateString_fits. assumption.
  - eexists. apply truncateString_cut; lia.
Qed.

(** What the function does, in bytes: with a cap of at least 3, a string of
    at most [maxLen] bytes is returned unchanged, a longer one is cut to its
    first [maxLen-3] bytes followed by three dots, [maxLen] bytes in all. *)
Lemma truncateString_bytes (s : string) (maxLen : Z) :
  3 <= maxLen ->
  (Z.of_nat (String.length s) <= maxLen ->
   truncateString (E:=Call) s maxLen = ([], Ok s)) /\
  (maxLen < Z.of_nat (String.length s) ->
   truncateString (E:=Call) s maxLen =
     ([], Ok (String.substring 0 (Z.to_nat (maxLen - 3)) s +:+ "...")) /\
   Z.of_nat (String.length (String.substring 0 (Z.to_nat (maxLen - 3)) s +:+ "..."))
     = maxLen).
Proof.
  intros Hcap. split.
  - apply truncateString_fits.
  - intros Hlong. split.
    + apply truncateString_cut; assumption.
    + rewrite length_append, length_substring0 by lia.
      cbn [String.length]. lia.
Qed.

(** With a cap below 3 and a longer string the slice bound [maxLen-3] is
    negative and the function panics; the program passes the caps 200, 150
    and 100. *)
Lemma truncateString_cap_2_panics : ~ truncation_as_specified "abcd" 2.
Proof.
  intros [_ H]. destruct H as [front [H _]]; [vm_compute; reflexivity |].
  discriminate H.
Qed.

(** *** Characters and bytes *)

Lemma characters_ascii (s : string) :
  strings.isASCII s = true -> characters s = Z.of_nat (String.length s).
Proof.
  unfold characters. induction s as [|c s IH]; intros H; [reflexivity |].
  cbn [strings.isASCII] in H. apply andb_true_iff in H as [Hc Hs].
  apply Z.ltb_lt in Hc. cbn [charactersFrom].
  rewrite (decode_ascii c s Hc). cbn [Nat.pred]. rewrite (IH Hs).
  cbn [String.length]. lia.
Qed.

Lemma isASCII_append (a b : string) :
  strings.isASCII a = true -> strings.isASCII b = true ->
  strings.isASCII (a +:+ b) = true.
Proof.
  intros Ha Hb. induction a as [|c a IH]; [exact Hb |].
  cbn [strings.isASCII] in Ha. apply andb_true_iff in Ha as [Hc Ha].
  change (String c a +:+ b) with (String c (a +:+ b)).
  cbn [strings.isASCII]. rewrite Hc, (IH Ha). reflexivity.
Qed.

Lemma isASCII_substring0 (n : nat) (s : string) :
  strings.isASCII s = true -> strings.isASCII (String.substring 0 n s) = true.
Proof.
  revert s. induction n as [|n IH]; intros s H.
  - destruct s; reflexivity.
  - destruct s as [|c s]; [reflexivity |].
    cbn [strings.isASCII] in H. apply andb_true_iff in H as [Hc Hs].
    cbn [String.substring strings.isASCII]. rewrite Hc, (IH s Hs). reflexivity.
Qed.

(** For a title of ASCII characters, where characters are bytes, and a cap
    of at least 3, the function truncates as the specification says. *)
Lemma truncateString_ascii (s : string) (maxLen : Z) :
  strings.isASCII s = true -> 3 <= maxLen -> truncation_as_specified s maxLen.
Proof.
  intros Hs Hcap. unfold truncation_as_specified.
  rewrite (characters_ascii s Hs).
  destruct (truncateString_bytes s maxLen Hcap) as [Hfit Hcut].
  split; [exact Hfit |].
  intros Hlong. destruct (Hcut Hlong) as [Hrun Hlen].
  eexists. split; [exact Hrun |].
  rewrite characters_ascii; [exact Hlen |].
  apply isASCII_append; [apply isASCII_substring0, Hs | reflexivity].
Qed.

(** C7.  The function measures and cuts bytes where the specification
    speaks of characters.  A title of 150 letters [é] (two bytes each) is
    within a cap of 200 characters, so it is to be returned unchanged; the
    function, called with the cap 200 as [main] does, returns a string of
    200 bytes instead, which is the first 197 bytes of the title and three
    dots: 102 characters, the letter at byte 196 being cut in two, so that
    the result is not valid UTF-8. *)
Theorem truncateString_cuts_accented_title :
  characters sample_accented_title = 150 /\
  validUTF8 sample_accented_title = true /\
  (exists t,
     truncateString (E:=Call) sample_accented_title 200 = ([], Ok t) /\
     t = String.substring 0 197 sample_accented_title +:+ "..." /\
     t <> sample_accented_title /\
     Z.of_nat (String.length t) = 200 /\
     characters t = 102 /\
     validUTF8 t = false) /\
  ~ truncation_as_specified sample_accented_title 200.
Proof.
  assert (Hrun : truncateString (E:=Call) sample_accented_title 200 =
                 ([], Ok (String.substring 0 197 sample_accented_title +:+ "...")))
    by (vm_compute; reflexivity).
  assert (Hdiff : String.substring 0 197 sample_accented_title +:+ "..."
                  <> sample_accented_title).
  { intros H. apply (f_equal String.length) in H. vm_compute in H. discriminate H. }
  split; [vm_compute; reflexivity | split; [vm_compute; reflexivity | split]].
  - eexists. split; [exact Hrun | split; [reflexivity | split; [exact Hdiff |]]].
    split; [vm_compute; reflexivity | split; vm_compute; reflexivity].
  - intros [Hfit _].
    assert (Hin : characters sample_accented_title <= 200)
      by (vm_compute; intros H; discriminate H).
    specialize (Hfit Hin). rewrite Hrun in Hfit.
    apply (f_equal (fun m : Run Call string =>
                      match result m with Ok t => t | Panic => EmptyString end))
      in Hfit.
    exact (Hdiff Hfit).
Qed.

(** ** The session registry *)

Lemma append_inj_l (a x y : string) : a +:+ x = a +:+ y -> x = y.
Proof.
  induction a as [|c a IH]; intros H; [exact H |].
  apply IH. change (String c (a +:+ x) = String c (a +:+ y)) in H.
  congruence.
Qed.

Lemma fmt_d_inj (m n : Z) : fmt.d m = fmt.d n -> m = n.
Proof.
  unfold fmt.d. intros H.
  assert (Hs : Some (Z.to_int m) = Some (Z.to_int n))
    by (rewrite <- !NilEmpty.isi, H; reflexivity).
  injection Hs as Hs.
  rewrite <- (DecimalZ.of_to m), <- (DecimalZ.of_to n), Hs. reflexivity.
Qed.

(** Keys of one conversation differ when the message identifiers do. *)
Lemma getCacheKey_inj (chatID m n : Z) :
  getCacheKey chatID m = getCacheKey chatID n -> m = n.
Proof.
  unfold getCacheKey. intros H.
  apply append_inj_l in H. apply (append_inj_l ":") in H.
  apply fmt_d_inj, H.
Qed.

(** The registry that the goroutine leaves, whatever the identifier. *)
Lemma main_func1_result (chatID : Z) (url platform title thumbnail : string)
    (sentMsgID : Z) (urlCache : gmap string Download) :
  let info := {| URL := url; Platform := platform; Title := title;
                 Thumbnail := thumbnail; Progress := 0; IsAudio := false |} in
  result (main_func1 chatID url platform (title, thumbnail) sentMsgID urlCache) =
  Ok (delete (getCacheKey chatID 0)
        (<[getCacheKey chatID sentMsgID := info]>
           (<[getCacheKey chatID 0 := info]> urlCache))).
Proof.
  intros info. unfold main_func1, result. cbn [Title].
  destruct (truncateString_returns Call title 200) as [t Ht]; [lia |].
  rewrite Ht.
  destruct (negb (String.eqb thumbnail "")); reflexivity.
Qed.

(** C4, as stated, fails when the options message could not be sent: the
    error of [bot.Send] is discarded, the identifier read from the zero
    message is the placeholder 0, both keys coincide and the entry is
    deleted. *)
Lemma main_func1_send_failed_drops_session :
  ~ rekey_as_specified 5 "https://youtu.be/abc" "YouTube" "Sample Title" "" 0 ∅.
Proof.
  intros [registry [Hres [_ Hperm]]].
  rewrite main_func1_result in Hres. injection Hres as <-.
  rewrite lookup_delete_eq in Hperm. discriminate Hperm.
Qed.

(** C4, amended: when the options message was sent, so that its identifier
    differs from the placeholder 0, the goroutine leaves nothing under the
    provisional key and the session record under the permanent key; every
    other key of the registry is as it was. *)
Theorem main_func1_rekeys (chatID : Z) (url platform title thumbnail : string)
    (sentMsgID : Z) (urlCache : gmap string Download) :
  sentMsgID <> 0 ->
  rekey_as_specified chatID url platform title thumbnail sentMsgID urlCache /\
  (forall registry key,
     result (main_func1 chatID url platform (title, thumbnail) sentMsgID urlCache)
       = Ok registry ->
     key <> getCacheKey chatID 0 -> key <> getCacheKey chatID sentMsgID ->
     registry !! key = urlCache !! key).
Proof.
  intros Hsent.
  assert (Hkeys : getCacheKey chatID 0 <> getCacheKey chatID sentMsgID).
  { intros H. apply getCacheKey_inj in H. congruence. }
  split.
  - eexists. split; [apply main_func1_result | split].
    + apply lookup_delete_eq.
    + rewrite lookup_delete_ne by exact Hkeys. apply lookup_insert_eq.
  - intros registry key Hres Hk0 Hk1.
    rewrite main_func1_result in Hres. injection Hres as <-.
    rewrite lookup_delete_ne by congruence.
    rewrite !lookup_insert_ne by congruence. reflexivity.
Qed.

Lemma main_func1_rekeys_witness :
  41 <> 0 /\
  rekey_as_specified 5 "https://youtu.be/abc" "YouTube" "Sample Title" "" 41 ∅.
Proof.
  split; [lia |].
  apply (main_func1_rekeys 5 "https://youtu.be/abc" "YouTube" "Sample Title" "" 41 ∅).
  lia.
Defined.

(** *** The registry writes of the goroutine *)

Lemma main_func1_as_ops (chatID : Z) (url platform title thumbnail : string)
    (sentMsgID : Z) (urlCache : gmap string Download) :
  let info := {| URL := url; Platform := platform; Title := title;
                 Thumbnail := thumbnail; Progress := 0; IsAudio := false |} in
  result (main_func1 chatID url platform (title, thumbnail) sentMsgID urlCache) =
  Ok (apply_in_order (main_func1_ops chatID info sentMsgID) urlCache).
Proof. apply main_func1_result. Qed.

(** What a key holds after a list of writes depends only on what it held
    before. *)
Lemma apply_in_order_lookup (key : string) (ops : list RegOp)
    (m m' : gmap string Download) :
  m !! key = m' !! key -> apply_in_order ops m !! key = apply_in_order ops m' !! key.
Proof.
  unfold apply_in_order. revert m m'. induction ops as [|op ops IH]; intros m m' H.
  - exact H.
  - cbn [fold_left]. apply IH. destruct op as [k i | k]; cbn [apply_op].
    + destruct (decide (k = key)) as [-> | Hne].
      * rewrite !lookup_insert_eq. reflexivity.
      * rewrite !lookup_insert_ne by exact Hne. exact H.
    + destruct (decide (k = key)) as [-> | Hne].
      * rewrite !lookup_delete_eq. reflexivity.
      * rewrite !lookup_delete_ne by exact Hne. exact H.
Qed.

Lemma apply_op_other (key : string) (op : RegOp) (m : gmap string Download) :
  op_key op <> key -> apply_op m op !! key = m !! key.
Proof.
  destruct op as [k i | k]; cbn [op_key apply_op]; intros Hne.
  - apply lookup_insert_ne, Hne.
  - apply lookup_delete_ne, Hne.
Qed.

(** Writes on other keys, wherever they fall among the writes [mine], do
    not change what a key holds in the end. *)
Lemma interleaving_lookup (key : string) (mine others merged : list RegOp) :
  interleaving mine others merged ->
  Forall (fun op => op_key op <> key) others ->
  forall m, apply_in_order merged m !! key = apply_in_order mine m !! key.
Proof.
  induction 1 as [| op mine others merged _ IH | op mine others merged _ IH];
    intros Hothers m.
  - reflexivity.
  - apply (IH Hothers).
  - apply Forall_cons in Hothers as [Hop Hothers].
    change (apply_in_order (op :: merged) m)
      with (apply_in_order merged (apply_op m op)).
    rewrite (IH Hothers). apply apply_in_order_lookup, apply_op_other, Hop.
Qed.

(** ** Delivery and the size ceiling *)

Section Delivery.

Variable sprintf_1f : spec_float -> string.
Variables (env : JobEnv) (chatID statusMsgID : Z) (info : Download).
Variables (file : string) (others : list string) (size : Z).

Hypothesis started : startErr env = false.
Hypothesis exited : waitErr env = false.
Hypothesis found : globFiles env = file :: others.
Hypothesis sized : statSize env = Some size.

Local Abbreviation fileSizeMB :=
  (float64.div (float64.of_int size) (float64.of_int 1048576)).

Lemma handleVideoDownload_too_large (quality : string) :
  MaxFileSize < size ->
  exists text,
    handleVideoDownload sprintf_1f env chatID info quality statusMsgID =
    ([StartCommand "yt-dlp" (videoArgs info quality (timestamp env));
      EditMessageText chatID statusMsgID text;
      SendMessage chatID
        ("⚠️ Video file (" +:+ sprintf_1f fileSizeMB +:+
         " MB) exceeds Telegram's limit. Try a lower quality option.") None;
      Remove file], Ok tt).
Proof.
  intros Hbig. unfold handleVideoDownload.
  rewrite started, exited, found, sized.
  destruct (truncateString_returns Call (Title info) 150) as [t Ht]; [lia |].
  rewrite Ht.
  replace (MaxFileSize <? size) with true by (symmetry; apply Z.ltb_lt, Hbig).
  eexists. reflexivity.
Qed.

Lemma handleVideoDownload_uploads (quality : string) :
  size <= MaxFileSize ->
  exists text caption,
    handleVideoDownload sprintf_1f env chatID info quality statusMsgID =
    ([StartCommand "yt-dlp" (videoArgs info quality (timestamp env));
      EditMessageText chatID statusMsgID text;
      SendVideo chatID file caption] ++
     (if sendErr env
      then [SendMessage chatID
              "❌ Failed to send video. File might be too large for Telegram." None]
      else []) ++
     [Remove file], Ok tt).
Proof.
  intros Hfits. unfold handleVideoDownload.
  rewrite started, exited, found, sized.
  destruct (truncateString_returns Call (Title info) 150) as [t Ht]; [lia |].
  destruct (truncateString_returns Call (Title info) 100) as [u Hu]; [lia |].
  rewrite Ht.
  replace (MaxFileSize <? size) with false by (symmetry; apply Z.ltb_ge, Hfits).
  cbn [mbind Run_MBind run_bind call]. rewrite Hu.
  do 2 eexists. destruct (sendErr env); reflexivity.
Qed.

Lemma handleAudioDownload_too_large :
  MaxFileSize < size ->
  exists text,
    handleAudioDownload sprintf_1f env chatID info statusMsgID =
    ([StartCommand "yt-dlp" (audioArgs info (timestamp env));
      EditMessageText chatID statusMsgID text;
      SendMessage chatID
        ("⚠️ Audio file (" +:+ sprintf_1f fileSizeMB +:+
         " MB) exceeds Telegram's limit.") None;
      Remove file], Ok tt).
Proof.
  intros Hbig. unfold handleAudioDownload.
  rewrite started, exited, found, sized.
  destruct (truncateString_returns Call (Title info) 150) as [t Ht]; [lia |].
  rewrite Ht.
  replace (MaxFileSize <? size) with true by (symmetry; apply Z.ltb_lt, Hbig).
  eexists. reflexivity.
Qed.

Lemma handleAudioDownload_uploads :
  size <= MaxFileSize ->
  exists text caption,
    handleAudioDownload sprintf_1f env chatID info statusMsgID =
    ([StartCommand "yt-dlp" (audioArgs info (timestamp env));
      EditMessageText chatID statusMsgID text;
      SendAudio chatID file caption (Title info)] ++
     (if sendErr env
      then [SendMessage chatID
              "❌ Failed to send audio. File might be too large for Telegram." None]
      else []) ++
     [Remove file], Ok tt).
Proof.
  intros Hfits. unfold handleAudioDownload.
  rewrite started, exited, found, sized.
  destruct (truncateString_returns Call (Title info) 150) as [t Ht]; [lia |].
  destruct (truncateString_returns Call (Title info) 100) as [u Hu]; [lia |].
  rewrite Ht.
  replace (MaxFileSize <? size) with false by (symmetry; apply Z.ltb_ge, Hfits).
  cbn [mbind Run_MBind run_bind call]. rewrite Hu.
  do 2 eexists. destruct (sendErr env); reflexivity.
Qed.

End Delivery.

(** C6.  When the produced file is larger than [MaxFileSize] (150 MiB), each
    handler sends the size-exceeded message and makes no upload call; when
    the file is at most that size, the handler makes the upload call for the
    file. *)
Theorem delivery_size_gate (sprintf_1f : spec_float -> string) (env : JobEnv)
    (chatID statusMsgID : Z) (info : Download) (quality file : string)
    (others : list string) (size : Z) :
  startErr env = false -> waitErr env = false ->
  globFiles env = file :: others -> statSize env = Some size ->
  let video := trace (handleVideoDownload sprintf_1f env chatID info quality statusMsgID) in
  let audio := trace (handleAudioDownload sprintf_1f env chatID info statusMsgID) in
  let sizeMB := sprintf_1f (float64.div (float64.of_int size) (float64.of_int 1048576)) in
  MaxFileSize = 157286400 /\
  (MaxFileSize < size ->
   In (SendMessage chatID
         ("⚠️ Video file (" +:+ sizeMB +:+
          " MB) exceeds Telegram's limit. Try a lower quality option.") None) video /\
   existsb isUpload video = false /\
   In (SendMessage chatID
         ("⚠️ Audio file (" +:+ sizeMB +:+ " MB) exceeds Telegram's limit.") None) audio /\
   existsb isUpload audio = false) /\
  (size <= MaxFileSize ->
   (exists caption, In (SendVideo chatID file caption) video) /\
   (exists caption, In (SendAudio chatID file caption (Title info)) audio)).
Proof.
  intros Hs Hw Hg Hz. cbv zeta. split; [reflexivity | split].
  - intros Hbig.
    destruct (handleVideoDownload_too_large sprintf_1f env chatID statusMsgID info
                file others size Hs Hw Hg Hz quality Hbig) as [tv Hv].
    destruct (handleAudioDownload_too_large sprintf_1f env chatID statusMsgID info
                file others size Hs Hw Hg Hz Hbig) as [ta Ha].
    rewrite Hv, Ha. unfold trace. cbn [fst In existsb isUpload orb]. tauto.
  - intros Hfits.
    destruct (handleVideoDownload_uploads sprintf_1f env chatID statusMsgID info
                file others size Hs Hw Hg Hz quality Hfits) as [tv [cv Hv]].
    destruct (handleAudioDownload_uploads sprintf_1f env chatID statusMsgID info
                file others size Hs Hw Hg Hz Hfits) as [ta [ca Ha]].
    rewrite Hv, Ha. unfold trace. cbn [fst]. split.
    + exists cv. cbn [app In]. tauto.
    + exists ca. cbn [app In]. tauto.
Qed.

Lemma delivery_size_gate_witness :
  MaxFileSize < 200 * 1024 * 1024 /\
  existsb isUpload
    (trace (handleVideoDownload (fun _ => "200.0") sample_env 5 sample_info "medium" 9))
  = false.
Proof.
  split; [reflexivity |].
  destruct (delivery_size_gate (fun _ => "200.0") sample_env 5 9 sample_info "medium"
              "video_1700000000000000000.mp4" [] (200 * 1024 * 1024)
              eq_refl eq_refl eq_refl eq_refl) as [_ [Hbig _]].
  apply Hbig. reflexivity.
Defined.

(** ** The format policy *)

Lemma platformArgs_flag (platform : string) :
  platformArgs platform =
  if decide (platform = "Instagram" \/ platform = "Facebook")
  then ["--no-check-certificate"] else [].
Proof.
  unfold platformArgs.
  destruct (String.eqb_spec platform "Instagram") as [->|Hi]; [reflexivity |].
  destruct (String.eqb_spec platform "Facebook") as [->|Hf]; [reflexivity |].
  cbn [orb]. destruct (decide _) as [[?|?]|?]; congruence.
Qed.

(** C8.  The format selection of the video handler follows the policy table:
    for YouTube the tokens 360p, 480p and 720p select their height-bounded
    specifiers and any other token [best]; for Instagram, Facebook and TikTok
    the token medium selects [worst[ext=mp4]/worst] and any other token
    [best[ext=mp4]/best]; for the platform Unknown always [best].  Both
    handlers pass their fixed arguments, then [--no-check-certificate] exactly
    when the platform is Instagram or Facebook, then the URL, to the tool they
    start. *)
Theorem format_policy_table (sprintf_1f : spec_float -> string) (env : JobEnv)
    (chatID statusMsgID : Z) (info : Download) (quality : string) :
  videoFormatCode "YouTube" "360p" =
    "18/bestvideo[height<=360]+bestaudio/best[height<=360]" /\
  videoFormatCode "YouTube" "480p" =
    "135+bestaudio/bestvideo[height<=480]+bestaudio/best[height<=480]" /\
  videoFormatCode "YouTube" "720p" =
    "22/136+bestaudio/bestvideo[height<=720]+bestaudio/best[height<=720]" /\
  (~ In quality ["360p"; "480p"; "720p"] -> videoFormatCode "YouTube" quality = "best") /\
  (forall platform, In platform ["Instagram"; "Facebook"; "TikTok"] ->
     videoFormatCode platform "medium" = "worst[ext=mp4]/worst" /\
     (quality <> "medium" -> videoFormatCode platform quality = "best[ext=mp4]/best")) /\
  videoFormatCode "Unknown" quality = "best" /\
  (forall platform,
     In "--no-check-certificate" (platformArgs platform) <->
     platform = "Instagram" \/ platform = "Facebook") /\
  videoArgs info quality (timestamp env) =
    ["-f"; videoFormatCode (Platform info) quality; "--remux-video"; "mp4";
     "-o"; "video_" +:+ fmt.d (timestamp env) +:+ ".%(ext)s"; "--newline";
     "--progress-template"; progressTemplate; "--no-playlist"] ++
    platformArgs (Platform info) ++ [URL info] /\
  audioArgs info (timestamp env) =
    ["-x"; "--audio-format"; "mp3"; "--audio-quality"; "0";
     "-o"; "audio_" +:+ fmt.d (timestamp env) +:+ ".%(ext)s"; "--newline";
     "--progress-template"; progressTemplate; "--no-playlist"] ++
    platformArgs (Platform info) ++ [URL info] /\
  (exists rest,
     trace (handleVideoDownload sprintf_1f env chatID info quality statusMsgID) =
     StartCommand "yt-dlp" (videoArgs info quality (timestamp env)) :: rest) /\
  (exists rest,
     trace (handleAudioDownload sprintf_1f env chatID info statusMsgID) =
     StartCommand "yt-dlp" (audioArgs info (timestamp env)) :: rest).
Proof.
  repeat match goal with |- _ /\ _ => split end; try reflexivity.
  - intros Hq. cbn [In] in Hq. unfold videoFormatCode. cbn [String.eqb Ascii.eqb Bool.eqb].
    destruct (String.eqb_spec quality "360p"); [exfalso; apply Hq; subst; auto |].
    destruct (String.eqb_spec quality "480p"); [exfalso; apply Hq; subst; auto |].
    destruct (String.eqb_spec quality "720p"); [exfalso; apply Hq; subst; auto |].
    reflexivity.
  - intros platform Hp. cbn [In] in Hp.
    destruct Hp as [<- | [<- | [<- | []]]]; (split; [reflexivity |]);
      intros Hq; unfold videoFormatCode;
      destruct (String.eqb_spec quality "medium"); try contradiction; reflexivity.
  - intros platform. rewrite platformArgs_flag.
    destruct (decide _) as [H|H]; cbn [In]; split.
    + intros _. exact H.
    + intros _. left. reflexivity.
    + intros [].
    + intros H'. contradiction.
  - unfold handleVideoDownload. cbv zeta. rewrite trace_call_bind.
    eexists. reflexivity.
  - unfold handleAudioDownload. cbv zeta. rewrite trace_call_bind.
    eexists. reflexivity.
Qed.

(** ** The clock *)

(** The comparison on nanoseconds agrees with the float comparison of the
    source around the threshold of the program, and away from it. *)
Lemma Seconds_ge_threshold :
  Forall (fun d => SFleb (float64.of_int UpdateIntervalSec) (time.Seconds d)
                   = time.Seconds_ge d UpdateIntervalSec)
         [-5; 0; 1; 999999999; 2999999998; 2999999999; 3000000000; 3000000001;
          3999999999; 10000000000; 9223372036854775807].
Proof.
  repeat (constructor; [vm_compute; reflexivity |]). constructor.
Qed.

(** ** The progress tracker *)

Section Tracker.

Variable int_out_of_range : spec_float -> Z.
Variables (chatID statusMsgID : Z) (title quality : string).

Local Abbreviation emitted :=
  (emitted_lines int_out_of_range chatID statusMsgID title quality).
Local Abbreviation due := (update_due int_out_of_range).

Lemma emitted_cons (last : Z) (l : Line) (rest : list Line) :
  emitted last (l :: rest) =
  if due last l then l :: emitted (now_clock l) rest else emitted last rest.
Proof.
  unfold emitted_lines, update_due. cbn [trackLoop].
  destruct (_ && _); [| reflexivity].
  destruct (truncateString_returns (Line * Call) title 150) as [t Ht]; [lia |].
  rewrite (bind_returned _ t _ Ht), trace_call_bind. reflexivity.
Qed.

Lemma due_spec (last : Z) (l : Line) :
  due last l = true <->
  0 < parseProgress int_out_of_range (line_text l) /\
  last + UpdateIntervalSec * time.Second <= since_clock l.
Proof.
  unfold update_due, time.Seconds_ge, time.Since.
  rewrite andb_true_iff, Z.ltb_lt, Z.leb_le. lia.
Qed.

Lemma trackLoop_returns (last : Z) (lines : list Line) :
  result (trackLoop int_out_of_range chatID statusMsgID title quality last lines)
  = Ok tt.
Proof.
  revert last. induction lines as [|l rest IH]; intros last; [reflexivity |].
  cbn [trackLoop]. destruct (_ && _); [| apply IH].
  destruct (truncateString_returns (Line * Call) title 150) as [t Ht]; [lia |].
  rewrite (bind_returned _ t _ Ht).
  specialize (IH (now_clock l)). unfold result in *.
  match goal with
  | |- snd (call ?e ;; ?m) = _ =>
      change (call e ;; m) with (run_bind (fun _ : unit => m) (call e));
      unfold run_bind, call; destruct m as [tr r]
  end.
  exact IH.
Qed.

Lemma emitted_sublist (last : Z) (lines : list Line) :
  sublist (emitted last lines) lines.
Proof.
  revert last. induction lines as [|l rest IH]; intros last.
  - constructor.
  - rewrite emitted_cons. destruct (due last l).
    + apply sublist_skip, IH.
    + apply sublist_cons, IH.
Qed.

Lemma emitted_throttled (last : Z) (lines : list Line) :
  throttled int_out_of_range last (emitted last lines).
Proof.
  revert last. induction lines as [|l rest IH]; intros last.
  - exact I.
  - rewrite emitted_cons. destruct (due last l) eqn:Hdue; [| apply IH].
    apply due_spec in Hdue as [Hpos Hgap].
    cbn [throttled]. split; [exact Hpos | split; [exact Hgap | apply IH]].
Qed.

(** Nothing is emitted while every line is read before the interval has
    passed since [last]. *)
Lemma emitted_early (last : Z) (lines : list Line) :
  Forall (fun l => since_clock l < last + UpdateIntervalSec * time.Second) lines ->
  emitted last lines = [].
Proof.
  induction 1 as [|l rest Hl _ IH]; [reflexivity |].
  rewrite emitted_cons. destruct (due last l) eqn:Hdue; [| exact IH].
  apply due_spec in Hdue. lia.
Qed.

(** After [last], the updates read up to [hi] are at least one interval
    apart, so that many intervals fit between [last] and [hi]. *)
Lemma emitted_count_from (last hi : Z) (lines : list Line) :
  Forall clock_monotone lines ->
  Forall (fun l => since_clock l <= hi) lines ->
  emitted last lines = [] \/
  UpdateIntervalSec * time.Second * Z.of_nat (length (emitted last lines)) <= hi - last.
Proof.
  intros Hmono. revert last.
  induction Hmono as [|l rest Hl _ IH]; intros last Hhi; [left; reflexivity |].
  apply Forall_cons in Hhi as [Hlhi Hhi].
  rewrite emitted_cons. destruct (due last l) eqn:Hdue; [| apply IH, Hhi].
  right. apply due_spec in Hdue as [_ Hgap]. unfold clock_monotone in Hl.
  cbn [length]. destruct (IH (now_clock l) Hhi) as [-> | Hn].
  - cbn [length]. unfold UpdateIntervalSec, time.Second in *. lia.
  - unfold UpdateIntervalSec, time.Second in *. lia.
Qed.

(** The updates caused by lines read between [lo] and [hi]: all but the
    first are an interval apart. *)
Lemma emitted_count_window (last lo hi : Z) (lines : list Line) :
  Forall clock_monotone lines ->
  Forall (fun l => lo <= since_clock l <= hi) lines ->
  emitted last lines = [] \/
  UpdateIntervalSec * time.Second * (Z.of_nat (length (emitted last lines)) - 1)
    <= hi - lo.
Proof.
  intros Hmono. revert last.
  induction Hmono as [|l rest Hl Hmono IH]; intros last Hwin; [left; reflexivity |].
  apply Forall_cons in Hwin as [Hlwin Hwin].
  rewrite emitted_cons. destruct (due last l) eqn:Hdue; [| apply IH, Hwin].
  right. unfold clock_monotone in Hl. cbn [length].
  assert (Hhi : Forall (fun l => since_clock l <= hi) rest)
    by (eapply Forall_impl; [exact Hwin | cbn; intros; lia]).
  destruct (emitted_count_from (now_clock l) hi rest Hmono Hhi) as [-> | Hn].
  - cbn [length]. unfold UpdateIntervalSec, time.Second. lia.
  - unfold UpdateIntervalSec, time.Second in *. lia.
Qed.

Lemma throttled_after (last : Z) (updates : list Line) :
  Forall clock_monotone updates ->
  throttled int_out_of_range last updates ->
  Forall (fun l => last + UpdateIntervalSec * time.Second <= since_clock l) updates.
Proof.
  intros Hmono. revert last.
  induction Hmono as [|l rest Hl _ IH]; intros last Ht; [constructor |].
  cbn [throttled] in Ht. destruct Ht as [_ [Hgap Ht]].
  constructor; [exact Hgap |].
  eapply Forall_impl; [apply (IH _ Ht) |].
  cbn. intros l' Hl'. unfold clock_monotone, UpdateIntervalSec, time.Second in *. lia.
Qed.

End Tracker.

Lemma updated_lines_emitted (int_out_of_range : spec_float -> Z)
    (chatID statusMsgID : Z) (lines : list Line) (title quality : string)
    (started : Z) :
  updated_lines int_out_of_range chatID statusMsgID lines title quality started =
  emitted_lines int_out_of_range chatID statusMsgID title quality started lines.
Proof. reflexivity. Qed.

(** C3.  [trackProgress] returns when the stream closes; the lines it
    answers with an edit are lines of the stream, in order; each has a parsed
    percent above 0 and was read at least 3 seconds after the clock reading
    kept from the previous edit (from the start for the first one).  Hence,
    with a clock that does not go back, lines read within a window of 10
    seconds cause at most 4 edits. *)
Theorem trackProgress_rate_limit (int_out_of_range : spec_float -> Z)
    (chatID statusMsgID : Z) (lines : list Line) (title quality : string)
    (started : Z) :
  let updates :=
    updated_lines int_out_of_range chatID statusMsgID lines title quality started in
  result (trackProgress int_out_of_range chatID statusMsgID lines title quality started)
    = Ok tt /\
  sublist updates lines /\
  throttled int_out_of_range started updates /\
  (forall windowStart,
     Forall clock_monotone lines ->
     Forall (fun l => windowStart <= since_clock l <= windowStart + 10 * time.Second)
            lines ->
     (length updates <= 4)%nat).
Proof.
  cbv zeta. rewrite updated_lines_emitted.
  split; [apply trackLoop_returns | split; [apply emitted_sublist | split]].
  - apply emitted_throttled.
  - intros lo Hmono Hwin.
    destruct (emitted_count_window int_out_of_range chatID statusMsgID title quality
                started lo (lo + 10 * time.Second) lines Hmono Hwin) as [-> | Hn].
    + cbn [length]. lia.
    + unfold UpdateIntervalSec, time.Second in Hn. lia.
Qed.

Lemma trackProgress_rate_limit_witness :
  Forall clock_monotone sample_lines /\
  Forall (fun l => 0 <= since_clock l <= 0 + 10 * time.Second) sample_lines /\
  (length (updated_lines sample_out_of_range 5 9 sample_lines "Sample Title" "720p" 0)
   <= 4)%nat.
Proof.
  assert (Hmono : Forall clock_monotone sample_lines)
    by (unfold sample_lines; cbn [map seq];
        repeat (constructor; [vm_compute; intros H; discriminate H |]); constructor).
  assert (Hwin : Forall (fun l => 0 <= since_clock l <= 0 + 10 * time.Second)
                        sample_lines)
    by (unfold sample_lines; cbn [map seq];
        repeat (constructor; [split; vm_compute; intros H; discriminate H |]);
        constructor).
  split; [exact Hmono | split; [exact Hwin |]].
  destruct (trackProgress_rate_limit sample_out_of_range 5 9 sample_lines
              "Sample Title" "720p" 0) as [_ [_ [_ Hcount]]].
  exact (Hcount 0 Hmono Hwin).
Defined.

(** C10.  The throttle clock of [trackProgress] starts with the reading
    taken before the first line: the first edit is caused by a line read at
    least 3 seconds after that reading, no edit is made while the lines are
    read earlier than that, and with a clock that does not go back this holds
    of every edit. *)
Theorem trackProgress_first_update (int_out_of_range : spec_float -> Z)
    (chatID statusMsgID : Z) (lines : list Line) (title quality : string)
    (started : Z) :
  let updates :=
    updated_lines int_out_of_range chatID statusMsgID lines title quality started in
  (forall first rest,
     updates = first :: rest -> started + 3 * time.Second <= since_clock first) /\
  (Forall (fun l => since_clock l < started + 3 * time.Second) lines -> updates = []) /\
  (Forall clock_monotone lines ->
   Forall (fun l => started + 3 * time.Second <= since_clock l) updates).
Proof.
  cbv zeta. rewrite updated_lines_emitted.
  pose proof (emitted_throttled int_out_of_range chatID statusMsgID title quality
                started lines) as Ht.
  split; [| split].
  - intros first rest Hup. rewrite Hup in Ht. cbn [throttled] in Ht.
    destruct Ht as [_ [Hgap _]]. exact Hgap.
  - apply emitted_early.
  - intros Hmono. apply (throttled_after int_out_of_range); [| exact Ht].
    apply Forall_forall. intros l Hl.
    rewrite Forall_forall in Hmono. apply Hmono.
    eapply elem_of_sublist; [exact Hl | apply emitted_sublist].
Qed.

Lemma trackProgress_first_update_witness :
  Forall (fun l => since_clock l < 0 + 3 * time.Second) (firstn 6 sample_lines) /\
  updated_lines sample_out_of_range 5 9 (firstn 6 sample_lines) "Sample Title" "720p" 0
  = [].
Proof.
  assert (Hearly : Forall (fun l => since_clock l < 0 + 3 * time.Second)
                          (firstn 6 sample_lines))
    by (unfold sample_lines; cbn [map seq firstn];
        repeat (constructor; [vm_compute; reflexivity |]); constructor).
  split; [exact Hearly |].
  destruct (trackProgress_first_update sample_out_of_range 5 9 (firstn 6 sample_lines)
              "Sample Title" "720p" 0) as [_ [Hnone _]].
  exact (Hnone Hearly).
Defined.

(** ** The progress parser *)

Lemma Split_no_separator (line : string) :
  strings.Contains line "/" = false -> strings.Split line "/" = [line].
Proof.
  unfold strings.Split. induction line as [|c line IH]; intros H; [reflexivity |].
  rewrite Contains_cons in H. apply orb_false_iff in H as [Hp Hc].
  cbn [strings.splitFrom]. rewrite Hp, (IH Hc). reflexivity.
Qed.

(** A line without a slash gives no progress. *)
Lemma parseProgress_no_slash (int_out_of_range : spec_float -> Z) (line : string) :
  strings.Contains line "/" = false -> parseProgress int_out_of_range line = 0.
Proof.
  intros H. unfold parseProgress. rewrite (Split_no_separator _ H). reflexivity.
Qed.

(** A line that is not two fields, a field that is not an [int64], or a
    total of zero give no progress. *)
Lemma parseProgress_rejects (int_out_of_range : spec_float -> Z) (line : string) :
  (forall p0 p1 downloaded total,
     strings.Split line "/" = [p0; p1] ->
     strconv.ParseInt p0 = Some downloaded ->
     strconv.ParseInt p1 = Some total -> total = 0) ->
  parseProgress int_out_of_range line = 0.
Proof.
  intros H. unfold parseProgress.
  destruct (strings.Split line "/") as [|p0 [|p1 [|p2 ps]]]; try reflexivity.
  destruct (strconv.ParseInt p0) as [d|] eqn:Hd; [| reflexivity].
  destruct (strconv.ParseInt p1) as [t|] eqn:Ht; [| reflexivity].
  rewrite (H p0 p1 d t eq_refl Hd Ht). reflexivity.
Qed.

(** The lines of the specification's examples. *)
Lemma parseProgress_examples (int_out_of_range : spec_float -> Z) :
  parseProgress int_out_of_range "5000000/10000000" = 50 /\
  parseProgress int_out_of_range "abc/10" = 0 /\
  parseProgress int_out_of_range "10/0" = 0.
Proof.
  repeat split; vm_compute; reflexivity.
Qed.

(** C2.  The specification gives [floor(100 * downloaded / total)] for every
    valid line.  The code divides and multiplies in [float64] and drops the
    fraction: for the line [29/100] the quotient is the float below 0.29, the
    product is 28.999999999999996 and the result is 28, while
    [floor(100 * 29 / 100)] is 29.  The same happens at 29 MiB of 100 MiB. *)
Theorem parseProgress_29_of_100 (int_out_of_range : spec_float -> Z) :
  parseProgress int_out_of_range "29/100" = 28 /\
  100 * 29 / 100 = 29 /\
  float64.mul (float64.div (float64.of_int 29) (float64.of_int 100)) (float64.of_int 100)
  = S754_finite false 8162774324609023 (-48) /\
  parseProgress int_out_of_range "30408704/104857600" = 28 /\
  100 * 30408704 / 104857600 = 29.
Proof.
  repeat split; vm_compute; reflexivity.
Qed.

(** ** Instances of the classifier theorems *)


Lemma valid_url_has_platform_witness :
  isValidURL "https://www.youtube.com/watch?v=abc" = true /\
  detectPlatform (fun r => r) "https://www.youtube.com/watch?v=abc" <> "Unknown".
Proof.
  assert (Hvalid : isValidURL "https://www.youtube.com/watch?v=abc" = true)
    by (vm_compute; reflexivity).
  split; [exact Hvalid |].
  destruct (valid_url_has_platform (fun r => r)
              "https://www.youtube.com/watch?v=abc" Hvalid) as [_ [Hknown _]].
  exact Hknown.
Defined.

(** * More of the program *)

(** ** Decimal strings *)

Ltac eval_digit :=
  match goal with
  | |- context [strconv.digit_val ?c] =>
      let v := eval vm_compute in (strconv.digit_val c) in
      change (strconv.digit_val c) with v
  end.

Lemma digits_of_uint_acc (u : Decimal.uint) (acc : positive) :
  strconv.digits (Z.pos acc) (NilEmpty.string_of_uint u) =
  Some (Z.pos (Pos.of_uint_acc u acc)).
Proof.
  revert acc. induction u as [|u IH|u IH|u IH|u IH|u IH|u IH|u IH|u IH|u IH|u IH];
    intros acc; cbn [NilEmpty.string_of_uint strconv.digits Pos.of_uint_acc];
    [reflexivity | ..];
    eval_digit; cbv iota beta; rewrite <- IH; f_equal; lia.
Qed.

Lemma digits_of_uint (u : Decimal.uint) :
  strconv.digits 0 (NilEmpty.string_of_uint u) = Some (Z.of_N (Pos.of_uint u)).
Proof.
  induction u as [|u IH|u IH|u IH|u IH|u IH|u IH|u IH|u IH|u IH|u IH];
    cbn [NilEmpty.string_of_uint strconv.digits Pos.of_uint];
    [reflexivity | ..]; eval_digit; cbv iota beta;
    first [exact IH | apply digits_of_uint_acc].
Qed.

Lemma digits_of_positive (p : positive) :
  strconv.digits 0 (NilEmpty.string_of_uint (Pos.to_uint p)) = Some (Z.pos p).
Proof.
  rewrite digits_of_uint, DecimalPos.Unsigned.of_to. reflexivity.
Qed.

(** A string of digits with a positive value is accepted by [ParseUint]. *)
Lemma ParseUint_of_positive (p : positive) :
  Z.pos p < 2 ^ 64 ->
  strconv.ParseUint (NilEmpty.string_of_uint (Pos.to_uint p)) = Some (Z.pos p).
Proof.
  intros Hp. pose proof (digits_of_positive p) as Hd. unfold strconv.ParseUint.
  destruct (NilEmpty.string_of_uint (Pos.to_uint p)) as [|c s]; [discriminate Hd |].
  rewrite Hd. replace (Z.pos p <? 2 ^ 64) with true by (symmetry; apply Z.ltb_lt, Hp).
  reflexivity.
Qed.

Lemma digits_first_is_digit (acc v : Z) (c : ascii) (s : string) :
  strconv.digits acc (String c s) = Some v ->
  Ascii.eqb c "+" = false /\ Ascii.eqb c "-" = false.
Proof.
  cbn [strconv.digits]. intros H.
  split; destruct (Ascii.eqb_spec c "+"), (Ascii.eqb_spec c "-"); subst;
    try reflexivity; discriminate H.
Qed.

(** [strconv.ParseInt] reads back what [%d] prints, for every [int64]. *)
Lemma ParseInt_fmt_d (n : Z) :
  - 2 ^ 63 <= n < 2 ^ 63 -> strconv.ParseInt (fmt.d n) = Some n.
Proof.
  intros Hn. unfold fmt.d. destruct n as [|p|p]; [reflexivity | |].
  - cbn [Z.to_int NilEmpty.string_of_int].
    pose proof (ParseUint_of_positive p ltac:(lia)) as Hu.
    pose proof (digits_of_positive p) as Hd. unfold strconv.ParseInt.
    destruct (NilEmpty.string_of_uint (Pos.to_uint p)) as [|c s]; [discriminate Hu |].
    destruct (digits_first_is_digit _ _ _ _ Hd) as [Hplus Hminus].
    rewrite Hplus, Hminus. cbn [orb]. rewrite Hu. cbv zeta. cbn [negb andb].
    replace (2 ^ 63 <=? Z.pos p) with false by (symmetry; apply Z.leb_gt; lia).
    reflexivity.
  - cbn [Z.to_int NilEmpty.string_of_int]. unfold strconv.ParseInt.
    change (Ascii.eqb "-" "-") with true. change (Ascii.eqb "-" "+") with false.
    cbn [orb]. rewrite (ParseUint_of_positive p) by lia. cbv zeta. cbn [negb andb].
    replace (2 ^ 63 <? Z.pos p) with false by (symmetry; apply Z.ltb_ge; lia).
    reflexivity.
Qed.

Lemma allDecimal_uint (u : Decimal.uint) :
  allDecimal (NilEmpty.string_of_uint u) = true.
Proof.
  induction u; cbn [NilEmpty.string_of_uint allDecimal]; [reflexivity | ..];
    rewrite IHu; reflexivity.
Qed.

Lemma allDecimal_fmt_d (n : Z) : allDecimal (fmt.d n) = true.
Proof.
  unfold fmt.d. destruct (Z.to_int n) as [u|u]; cbn [NilEmpty.string_of_int].
  - apply allDecimal_uint.
  - cbn [allDecimal]. rewrite allDecimal_uint. reflexivity.
Qed.

(** A byte that [%d] never prints does not occur in what it prints. *)
Lemma allDecimal_without (c : ascii) (s : string) :
  allDecimal (String c EmptyString) = false -> allDecimal s = true ->
  strings.Contains s (String c EmptyString) = false.
Proof.
  intros Hc. induction s as [|x s IH]; intros Hs.
  - reflexivity.
  - cbn [allDecimal] in Hs. apply andb_true_iff in Hs as [Hx Hs].
    rewrite Contains_cons, (IH Hs), orb_false_r.
    destruct (String.prefix (String c "") (String x s)) eqn:Hp; [| reflexivity].
    apply prefix_cons in Hp as [-> _].
    cbn [allDecimal] in Hc. rewrite Hx in Hc. discriminate Hc.
Qed.

(** ** [strings.Split] on a separator of one byte *)

Lemma Split_without (s sep : string) :
  strings.Contains s sep = false -> strings.Split s sep = [s].
Proof.
  unfold strings.Split. induction s as [|c s IH]; intros H; [reflexivity |].
  rewrite Contains_cons in H. apply orb_false_iff in H as [Hp Hc].
  cbn [strings.splitFrom]. rewrite Hp, (IH Hc). reflexivity.
Qed.

Lemma prefix_byte (c x : ascii) (s : string) :
  String.prefix (String c EmptyString) (String x s) = Ascii.eqb x c.
Proof.
  cbn [String.prefix]. destruct (ascii_dec c x) as [->|Hne].
  - rewrite prefix_nil, Ascii.eqb_refl. reflexivity.
  - symmetry. apply Ascii.eqb_neq. congruence.
Qed.

Lemma Split_cons (c x : ascii) (s : string) :
  strings.Split (String x s) (String c EmptyString) =
  if Ascii.eqb x c
  then EmptyString :: strings.Split s (String c EmptyString)
  else strings.cons_field x (strings.Split s (String c EmptyString)).
Proof.
  unfold strings.Split. cbn [strings.splitFrom]. rewrite prefix_byte. reflexivity.
Qed.

Lemma Split_nonempty (s sep : string) : strings.Split s sep <> [].
Proof.
  unfold strings.Split. generalize O.
  induction s as [|x s IH]; intros k; cbn [strings.splitFrom]; [discriminate |].
  destruct k; [| apply IH].
  destruct (String.prefix sep (String x s)); [discriminate |].
  specialize (IH O). destruct (strings.splitFrom sep 0 s); [contradiction | discriminate].
Qed.

(** The number of fields is one more than the number of separators. *)
Lemma Split_length (c : ascii) (s : string) :
  length (strings.Split s (String c EmptyString)) = S (countByte c s).
Proof.
  induction s as [|x s IH]; [reflexivity |].
  rewrite Split_cons. cbn [countByte]. destruct (Ascii.eqb x c).
  - cbn [length]. rewrite IH. reflexivity.
  - pose proof (Split_nonempty s (String c "")) as Hne.
    destruct (strings.Split s (String c "")) as [|f fs]; [contradiction |].
    cbn [strings.cons_field length] in *. rewrite IH. reflexivity.
Qed.

Lemma countByte_Contains (c : ascii) (s : string) :
  countByte c s = O <-> strings.Contains s (String c EmptyString) = false.
Proof.
  induction s as [|x s IH]; [split; reflexivity |].
  rewrite Contains_cons, prefix_byte. cbn [countByte].
  destruct (Ascii.eqb x c); cbn [orb Nat.add].
  - split; discriminate.
  - exact IH.
Qed.

(** A split into one field: the string has no separator. *)
Lemma Split_one_inv (c : ascii) (s b : string) :
  strings.Split s (String c EmptyString) = [b] -> s = b /\ countByte c s = O.
Proof.
  intros H. pose proof (Split_length c s) as Hl. rewrite H in Hl.
  cbn [length] in Hl. assert (Hc : countByte c s = O) by lia.
  split; [| exact Hc].
  rewrite (Split_without s (String c "")) in H by (apply countByte_Contains, Hc).
  congruence.
Qed.

(** A split into two fields: the string is the two fields around one
    separator. *)
Lemma Split_two_inv (c : ascii) (s a b : string) :
  strings.Split s (String c EmptyString) = [a; b] ->
  s = a +:+ String c b /\ countByte c a = O /\ countByte c b = O.
Proof.
  revert a. induction s as [|x s IH]; intros a H; [discriminate H |].
  rewrite Split_cons in H. destruct (Ascii.eqb x c) eqn:Hx.
  - apply Ascii.eqb_eq in Hx as ->. injection H as <- H.
    apply Split_one_inv in H as [-> Hb].
    split; [reflexivity | split; [reflexivity | exact Hb]].
  - pose proof (Split_nonempty s (String c "")) as Hne.
    destruct (strings.Split s (String c "")) as [|f fs] eqn:Hs; [contradiction |].
    cbn [strings.cons_field] in H. injection H as <- ->.
    destruct (IH f eq_refl) as [-> [Ha Hb]].
    split; [reflexivity | split; [| exact Hb]].
    cbn [countByte]. rewrite Hx, Ha. reflexivity.
Qed.

(** Two strings without the separator, put around it, split back into
    themselves. *)
Lemma Split_two (c : ascii) (a b : string) :
  strings.Contains a (String c EmptyString) = false ->
  strings.Contains b (String c EmptyString) = false ->
  strings.Split (a +:+ String c b) (String c EmptyString) = [a; b].
Proof.
  intros Ha Hb. induction a as [|x a IH].
  - change ("" +:+ String c b) with (String c b).
    rewrite Split_cons, Ascii.eqb_refl, (Split_without b _ Hb). reflexivity.
  - change (String x a +:+ String c b) with (String x (a +:+ String c b)).
    rewrite Contains_cons, prefix_byte in Ha. apply orb_false_iff in Ha as [Hx Ha].
    rewrite Split_cons, Hx, (IH Ha). reflexivity.
Qed.

(** ** Registry keys *)

Lemma getCacheKey_Split (chatID messageID : Z) :
  strings.Split (getCacheKey chatID messageID) ":" = [fmt.d chatID; fmt.d messageID].
Proof.
  unfold getCacheKey. change (":" +:+ fmt.d messageID) with (String ":" (fmt.d messageID)).
  apply Split_two; apply allDecimal_without; (reflexivity || apply allDecimal_fmt_d).
Qed.

(** X1.  [getCacheKey] is injective: two keys are equal only when both the
    conversation and the message identifier are. *)
Theorem getCacheKey_injective (chatID messageID chatID' messageID' : Z) :
  getCacheKey chatID messageID = getCacheKey chatID' messageID' ->
  chatID = chatID' /\ messageID = messageID'.
Proof.
  intros H. pose proof (getCacheKey_Split chatID messageID) as Hs.
  rewrite H, getCacheKey_Split in Hs. injection Hs as Hc Hm.
  split; symmetry; apply fmt_d_inj; assumption.
Qed.

Lemma getCacheKey_injective_witness :
  getCacheKey 5 41 = getCacheKey 5 41 /\ 5 = 5 /\ 41 = 41.
Proof.
  split; [reflexivity |]. apply (getCacheKey_injective 5 41 5 41). reflexivity.
Defined.

(** ** More on the progress parser *)

(** X2.  A line that [parseProgress] answers with a non-zero percent has
    exactly one slash, with an [int64] on each side and a total that is not
    zero. *)
Theorem parseProgress_nonzero (int_out_of_range : spec_float -> Z) (line : string) :
  parseProgress int_out_of_range line <> 0 ->
  countByte "/" line = 1%nat /\
  exists a b downloaded total,
    line = a +:+ "/" +:+ b /\
    strconv.ParseInt a = Some downloaded /\
    strconv.ParseInt b = Some total /\
    total <> 0.
Proof.
  unfold parseProgress. intros H.
  pose proof (Split_length "/" line) as Hlen.
  destruct (strings.Split line "/") as [|a [|b [|c fields]]] eqn:Hs;
    try (exfalso; apply H; reflexivity).
  cbn [length] in Hlen. split; [lia |].
  destruct (strconv.ParseInt a) as [d|] eqn:Ha; [| exfalso; apply H; reflexivity].
  destruct (strconv.ParseInt b) as [t|] eqn:Hb; [| exfalso; apply H; reflexivity].
  exists a, b, d, t. apply Split_two_inv in Hs as [-> _].
  split; [reflexivity | split; [exact Ha | split; [exact Hb |]]].
  intros ->. apply H. reflexivity.
Qed.

Lemma parseProgress_nonzero_witness :
  countByte "/" "5000000/10000000" = 1%nat.
Proof.
  refine (proj1 (parseProgress_nonzero sample_out_of_range "5000000/10000000" _)).
  vm_compute. intros H. discriminate H.
Defined.

(** X3.  The parser reads back the line that the progress template prints
    for two [int64] counts: the fields are the two numbers, and the result is
    0 for a zero total and the truncated float percentage otherwise. *)
Theorem parseProgress_of_printed (int_out_of_range : spec_float -> Z)
    (downloaded total : Z) :
  - 2 ^ 63 <= downloaded < 2 ^ 63 -> - 2 ^ 63 <= total < 2 ^ 63 ->
  strings.Split (fmt.d downloaded +:+ "/" +:+ fmt.d total) "/" =
    [fmt.d downloaded; fmt.d total] /\
  parseProgress int_out_of_range (fmt.d downloaded +:+ "/" +:+ fmt.d total) =
    if total =? 0 then 0
    else float64.to_int int_out_of_range
           (float64.mul
              (float64.div (float64.of_int downloaded) (float64.of_int total))
              (float64.of_int 100)).
Proof.
  intros Hd Ht.
  assert (Hs : strings.Split (fmt.d downloaded +:+ "/" +:+ fmt.d total) "/" =
               [fmt.d downloaded; fmt.d total]).
  { change ("/" +:+ fmt.d total) with (String "/" (fmt.d total)).
    apply Split_two; apply allDecimal_without; (reflexivity || apply allDecimal_fmt_d). }
  split; [exact Hs |].
  unfold parseProgress. rewrite Hs, (ParseInt_fmt_d _ Hd), (ParseInt_fmt_d _ Ht).
  reflexivity.
Qed.

Lemma parseProgress_of_printed_witness :
  parseProgress sample_out_of_range (fmt.d 5000000 +:+ "/" +:+ fmt.d 0) = 0.
Proof.
  refine (proj2 (parseProgress_of_printed sample_out_of_range 5000000 0 _ _));
    split; vm_compute; (reflexivity || (intros H; discriminate H)).
Defined.

(** ** More on truncation *)

(** X4.  Whenever [truncateString] returns, its result is no longer than the
    cap and no longer than the input, and truncating it again with the same
    cap returns it unchanged. *)
Theorem truncateString_idempotent (s t : string) (maxLen : Z) :
  result (truncateString (E:=Call) s maxLen) = Ok t ->
  Z.of_nat (String.length t) <= maxLen /\
  (String.length t <= String.length s)%nat /\
  truncateString (E:=Call) t maxLen = ([], Ok t).
Proof.
  intros H.
  destruct (Z_le_gt_dec (Z.of_nat (String.length s)) maxLen) as [Hfit | Hlong].
  - rewrite truncateString_fits in H by exact Hfit. injection H as <-.
    split; [exact Hfit | split; [lia | apply truncateString_fits, Hfit]].
  - destruct (Z_lt_le_dec maxLen 3) as [Hsmall | Hcap].
    + rewrite truncateString_panics in H by lia. discriminate H.
    + rewrite truncateString_cut in H by lia. injection H as <-.
      assert (Hlen : Z.of_nat (String.length
                (String.substring 0 (Z.to_nat (maxLen - 3)) s +:+ "...")) = maxLen).
      { rewrite length_append, length_substring0 by lia. cbn [String.length]. lia. }
      split; [lia | split; [lia | apply truncateString_fits; lia]].
Qed.

Lemma truncateString_idempotent_witness :
  truncateString (E:=Call) "ab..." 5 = ([], Ok "ab...").
Proof.
  refine (proj2 (proj2 (truncateString_idempotent "abcdefgh" "ab..." 5 _))).
  reflexivity.
Defined.

(** ** More on the progress tracker *)

Lemma trace_bind {E A B : Type} (m : Run E A) (f : A -> Run E B) :
  trace (m ≫= f) =
  match result m with
  | Ok a => trace m ++ trace (f a)
  | Panic => trace m
  end.
Proof.
  change (m ≫= f) with (run_bind f m). unfold run_bind, trace, result.
  destruct m as [tr [a|]]; cbn [fst snd]; [| reflexivity].
  destruct (f a). reflexivity.
Qed.

(** One turn of the loop of [trackProgress]. *)
Lemma trackLoop_step (int_out_of_range : spec_float -> Z) (chatID statusMsgID : Z)
    (title quality : string) :
  exists shown,
    result (truncateString (E:=Call) title 150) = Ok shown /\
    forall last l rest,
      trackLoop int_out_of_range chatID statusMsgID title quality last (l :: rest) =
      if update_due int_out_of_range last l
      then call (l, EditMessageText chatID statusMsgID
                      ("⏳ *Processing " +:+ quality +:+ " download*" +:+
                       fmt.newline +:+ fmt.newline +:+ shown +:+
                       fmt.newline +:+ fmt.newline +:+
                       fmt.d (parseProgress int_out_of_range (line_text l)) +:+
                       "% complete..."));;
           trackLoop int_out_of_range chatID statusMsgID title quality (now_clock l) rest
      else trackLoop int_out_of_range chatID statusMsgID title quality last rest.
Proof.
  destruct (truncateString_returns Call title 150) as [t Ht]; [lia |].
  assert (Ht' : truncateString (E:=Line * Call) title 150 = ([], Ok t)).
  { destruct (Z_le_gt_dec (Z.of_nat (String.length title)) 150) as [Hfit | Hlong].
    - rewrite truncateString_fits in Ht |- * by exact Hfit. congruence.
    - rewrite truncateString_cut in Ht |- * by lia. congruence. }
  exists t. split; [rewrite Ht; reflexivity |].
  intros last l rest. cbn [trackLoop]. unfold update_due.
  destruct (_ && _); [| reflexivity].
  rewrite (bind_returned _ t _ Ht'). reflexivity.
Qed.

(** X5.  Lines that do not parse to a positive percent (diagnostics, malformed
    or zero progress) are invisible to the tracker: with them removed from the
    stream, the run is the same. *)
Theorem trackProgress_ignores_noise (int_out_of_range : spec_float -> Z)
    (chatID statusMsgID : Z) (lines : list Line) (title quality : string)
    (started : Z) :
  trackProgress int_out_of_range chatID statusMsgID
    (List.filter (fun l => 0 <? parseProgress int_out_of_range (line_text l)) lines)
    title quality started =
  trackProgress int_out_of_range chatID statusMsgID lines title quality started.
Proof.
  unfold trackProgress. cbv zeta.
  destruct (trackLoop_step int_out_of_range chatID statusMsgID title quality)
    as [shown [_ Hstep]].
  generalize started as last.
  induction lines as [|l rest IH]; intros last; [reflexivity |].
  cbn [List.filter]. rewrite (Hstep last l rest). unfold update_due.
  destruct (0 <? parseProgress int_out_of_range (line_text l)) eqn:Hpos.
  - rewrite Hstep. unfold update_due. rewrite Hpos. cbn [andb].
    destruct (time.Seconds_ge _ _); rewrite IH; reflexivity.
  - cbn [andb]. apply IH.
Qed.

(** X6.  Every call of the tracker is an edit of the status message of its
    job, and the text of the edit shows the percent parsed from the line that
    caused it; the tracker sends no other message. *)
Theorem trackProgress_edits_status (int_out_of_range : spec_float -> Z)
    (chatID statusMsgID : Z) (lines : list Line) (title quality : string)
    (started : Z) :
  exists shown,
    result (truncateString (E:=Call) title 150) = Ok shown /\
    Forall (fun lc : Line * Call =>
              snd lc =
              EditMessageText chatID statusMsgID
                ("⏳ *Processing " +:+ quality +:+ " download*" +:+
                 fmt.newline +:+ fmt.newline +:+ shown +:+
                 fmt.newline +:+ fmt.newline +:+
                 fmt.d (parseProgress int_out_of_range (line_text (fst lc))) +:+
                 "% complete..."))
           (trace (trackProgress int_out_of_range chatID statusMsgID lines
                     title quality started)).
Proof.
  destruct (trackLoop_step int_out_of_range chatID statusMsgID title quality)
    as [shown [Hshown Hstep]].
  exists shown. split; [exact Hshown |].
  unfold trackProgress. cbv zeta. generalize started as last.
  induction lines as [|l rest IH]; intros last; [constructor |].
  rewrite Hstep. destruct (update_due int_out_of_range last l); [| apply IH].
  rewrite trace_call_bind. constructor; [reflexivity | apply IH].
Qed.

Lemma emitted_some (int_out_of_range : spec_float -> Z) (chatID statusMsgID : Z)
    (title quality : string) (last : Z) (lines : list Line) :
  Exists (fun l => update_due int_out_of_range last l = true) lines ->
  emitted_lines int_out_of_range chatID statusMsgID title quality last lines <> [].
Proof.
  induction 1 as [l rest Hdue | l rest _ IH]; rewrite emitted_cons.
  - rewrite Hdue. discriminate.
  - destruct (update_due int_out_of_range last l); [discriminate | exact IH].
Qed.

(** X7.  Progress is not starved: when the stream holds a line of positive
    percent that is read 3 seconds or more after the tracker started, the
    tracker makes at least one edit. *)
Theorem trackProgress_reports (int_out_of_range : spec_float -> Z)
    (chatID statusMsgID : Z) (lines : list Line) (title quality : string)
    (started : Z) (l : Line) :
  In l lines ->
  0 < parseProgress int_out_of_range (line_text l) ->
  started + 3 * time.Second <= since_clock l ->
  updated_lines int_out_of_range chatID statusMsgID lines title quality started <> [].
Proof.
  intros Hin Hpos Hlate. rewrite updated_lines_emitted. apply emitted_some.
  apply Exists_exists. exists l. split; [apply list_elem_of_In, Hin |].
  apply due_spec. split; [exact Hpos | exact Hlate].
Qed.

Lemma trackProgress_reports_witness :
  updated_lines sample_out_of_range 5 9
    [ {| line_text := "5000000/10000000"; since_clock := 3000000000;
         now_clock := 3000000001 |} ] "Sample Title" "720p" 0 <> [].
Proof.
  refine (trackProgress_reports sample_out_of_range 5 9 _ "Sample Title" "720p" 0
            {| line_text := "5000000/10000000"; since_clock := 3000000000;
               now_clock := 3000000001 |} _ _ _).
  - left. reflexivity.
  - vm_compute. reflexivity.
  - vm_compute. intros H. discriminate H.
Defined.

(** ** The outcomes of a download job *)

(** Every path through a handler, one goal each, with the run computed. *)
Ltac job_paths env info :=
  let t150 := fresh "t150" in
  let H150 := fresh "H150" in
  let t100 := fresh "t100" in
  let H100 := fresh "H100" in
  destruct (truncateString_returns Call (Title info) 150) as [t150 H150]; [lia |];
  destruct (truncateString_returns Call (Title info) 100) as [t100 H100]; [lia |];
  unfold handleVideoDownload, handleAudioDownload, deliverable, stat_fails, found_file;
  destruct env as [ts se we gf ss sd];
  cbn [timestamp startErr waitErr globFiles statSize sendErr];
  destruct se;
  [ | destruct we;
      [ | destruct gf as [|f gf];
          [ | destruct ss as [size|];
              [ rewrite !H150; rewrite (Z.ltb_antisym size MaxFileSize);
                destruct (size <=? MaxFileSize); cbn [negb];
                [ cbn [mbind Run_MBind run_bind call]; rewrite !H100; destruct sd | ]
              | ] ] ] ];
  cbv [mbind Run_MBind run_bind call defer panic mret Run_MRet run_ret
       trace result fst snd app negb andb orb].

(** X8.  A handler uploads the file exactly when the job is deliverable: the
    tool started and exited without error, a file was found, its size could
    be read and is at most [MaxFileSize]. *)
Theorem job_uploads_iff_deliverable (sprintf_1f : spec_float -> string)
    (env : JobEnv) (chatID statusMsgID : Z) (info : Download) (quality : string) :
  existsb isUpload
    (trace (handleVideoDownload sprintf_1f env chatID info quality statusMsgID))
    = deliverable env /\
  existsb isUpload
    (trace (handleAudioDownload sprintf_1f env chatID info statusMsgID))
    = deliverable env.
Proof.
  job_paths env info; split; reflexivity.
Qed.

(** X9.  Clean-up: when the tool ran and a file was found, the last call of
    the handler removes that file and it is the only removal, whether the
    upload succeeded, failed, was refused for size, or the handler panicked;
    otherwise the handler removes nothing. *)
Theorem job_removes_file (sprintf_1f : spec_float -> string)
    (env : JobEnv) (chatID statusMsgID : Z) (info : Download) (quality : string) :
  let video := trace (handleVideoDownload sprintf_1f env chatID info quality statusMsgID) in
  let audio := trace (handleAudioDownload sprintf_1f env chatID info statusMsgID) in
  match found_file env with
  | Some file =>
      last video = Some (Remove file) /\ countCalls isRemove video = 1%nat /\
      last audio = Some (Remove file) /\ countCalls isRemove audio = 1%nat
  | None =>
      countCalls isRemove video = 0%nat /\ countCalls isRemove audio = 0%nat
  end.
Proof.
  cbv zeta. job_paths env info; repeat split; reflexivity.
Qed.

(** X10.  A handler sends at most one text message: none when the upload
    succeeded or when it panicked, exactly one on every other path. *)
Theorem job_text_messages (sprintf_1f : spec_float -> string)
    (env : JobEnv) (chatID statusMsgID : Z) (info : Download) (quality : string) :
  let expected :=
    if (deliverable env && negb (sendErr env)) || stat_fails env
    then 0%nat else 1%nat in
  countCalls isTextMessage
    (trace (handleVideoDownload sprintf_1f env chatID info quality statusMsgID))
    = expected /\
  countCalls isTextMessage
    (trace (handleAudioDownload sprintf_1f env chatID info statusMsgID))
    = expected.
Proof.
  cbv zeta. job_paths env info; split; reflexivity.
Qed.

(** X11.  A handler panics exactly when a file was found and [os.Stat]
    failed on it: the size is then read through a nil [FileInfo].  On that
    path the handler has only started the tool and removed the file: the
    user gets no message. *)
Theorem job_panics_iff_stat_fails (sprintf_1f : spec_float -> string)
    (env : JobEnv) (chatID statusMsgID : Z) (info : Download) (quality : string) :
  let video := handleVideoDownload sprintf_1f env chatID info quality statusMsgID in
  let audio := handleAudioDownload sprintf_1f env chatID info statusMsgID in
  (result video = Panic <-> stat_fails env = true) /\
  (result audio = Panic <-> stat_fails env = true) /\
  (stat_fails env = true ->
   exists file,
     found_file env = Some file /\
     trace video = [StartCommand "yt-dlp" (videoArgs info quality (timestamp env));
                    Remove file] /\
     trace audio = [StartCommand "yt-dlp" (audioArgs info (timestamp env));
                    Remove file]).
Proof.
  cbv zeta. job_paths env info;
    (split; [split; intros H; (reflexivity || discriminate H) |
     split; [split; intros H; (reflexivity || discriminate H) |]]);
    intros H; try discriminate H.
  exists f. repeat split; reflexivity.
Qed.

Lemma job_panics_iff_stat_fails_witness :
  result (handleVideoDownload (fun _ => "200.0")
            {| timestamp := 17; startErr := false; waitErr := false;
               globFiles := ["video_17.mp4"]; statSize := None; sendErr := false |}
            5 sample_info "medium" 9) = Panic.
Proof.
  refine (proj2 (proj1 (job_panics_iff_stat_fails (fun _ => "200.0")
            {| timestamp := 17; startErr := false; waitErr := false;
               globFiles := ["video_17.mp4"]; statSize := None; sendErr := false |}
            5 9 sample_info "medium")) _).
  reflexivity.
Defined.

Lemma append_inj_r (a b x : string) : a +:+ x = b +:+ x -> a = b.
Proof.
  revert b. induction a as [|c a IH]; intros [|d b] H.
  - reflexivity.
  - apply (f_equal String.length) in H. rewrite !length_append in H.
    cbn [String.length] in H. lia.
  - apply (f_equal String.length) in H. rewrite !length_append in H.
    cbn [String.length] in H. lia.
  - change (String c (a +:+ x) = String d (b +:+ x)) in H.
    injection H as -> H. rewrite (IH b H). reflexivity.
Qed.

(** X12.  Jobs do not share output names: the argument after [-o] is the
    same for two jobs of a kind only when their timestamps are equal, and the
    name of a video job is never that of an audio job. *)
Theorem job_output_names_distinct (info info' : Download) (quality quality' : string)
    (ts ts' : Z) :
  videoArgs info quality ts !! 4%nat = Some "-o" /\
  audioArgs info ts !! 5%nat = Some "-o" /\
  (videoArgs info quality ts !! 5%nat = videoArgs info' quality' ts' !! 5%nat ->
   ts = ts') /\
  (audioArgs info ts !! 6%nat = audioArgs info' ts' !! 6%nat -> ts = ts') /\
  videoArgs info quality ts !! 5%nat <> audioArgs info' ts' !! 6%nat.
Proof.
  split; [reflexivity | split; [reflexivity | split; [| split]]].
  - unfold videoArgs. cbv zeta. cbn [app lookup list_lookup]. intros H.
    injection H as H. apply append_inj_l, append_inj_r, fmt_d_inj in H. exact H.
  - unfold audioArgs. cbv zeta. cbn [app lookup list_lookup]. intros H.
    injection H as H. apply append_inj_l, append_inj_r, fmt_d_inj in H. exact H.
  - unfold videoArgs, audioArgs. cbv zeta. cbn [app lookup list_lookup].
    intros H. discriminate H.
Qed.

(** ** The update loop *)

(** The callback branch, for a session that exists and data of two fields. *)
Lemma main_update_callback (lower_case : Z -> Z) (editedMsgID : Z)
    (callbackID : string) (chatID messageID : Z) (data format quality : string)
    (urlCache : gmap string Download) (info : Download) :
  urlCache !! getCacheKey chatID messageID = Some info ->
  strings.Split data ":" = [format; quality] ->
  let chosen := set_IsAudio info (String.eqb format "audio") in
  exists text,
    main_update lower_case editedMsgID
      (CallbackUpdate callbackID chatID messageID data) urlCache =
    ([AnswerCallback callbackID "Processing download...";
      EditTextClearKeyboard chatID messageID text] ++
     (if String.eqb format "video" then [GoVideo chatID chosen quality editedMsgID]
      else if String.eqb format "audio" then [GoAudio chatID chosen editedMsgID]
      else []),
     Ok (<[getCacheKey chatID messageID := chosen]> urlCache)).
Proof.
  intros Hinfo Hsplit chosen. unfold main_update. rewrite Hinfo, Hsplit.
  fold chosen.
  destruct (truncateString_returns LoopCall (Title chosen) 150) as [t Ht]; [lia |].
  rewrite Ht. eexists.
  destruct (String.eqb format "video"); [reflexivity |].
  destruct (String.eqb format "audio"); reflexivity.
Qed.

(** X13.  A callback is dropped without any call, not even the
    acknowledgement, and without touching the registry, when no session is
    stored for its message or when its data does not hold exactly one
    colon. *)
Theorem main_update_drops_callback (lower_case : Z -> Z) (editedMsgID : Z)
    (callbackID : string) (chatID messageID : Z) (data : string)
    (urlCache : gmap string Download) :
  urlCache !! getCacheKey chatID messageID = None \/ countByte ":" data <> 1%nat ->
  main_update lower_case editedMsgID
    (CallbackUpdate callbackID chatID messageID data) urlCache = ([], Ok urlCache).
Proof.
  intros H. unfold main_update.
  destruct (urlCache !! getCacheKey chatID messageID) as [info|]; [| reflexivity].
  destruct H as [H | H]; [discriminate H |].
  pose proof (Split_length ":" data) as Hlen.
  destruct (strings.Split data ":") as [|a [|b [|c fields]]]; try reflexivity.
  cbn [length] in Hlen. lia.
Qed.

Lemma main_update_drops_callback_witness :
  main_update (fun r => r) 0 (CallbackUpdate "cb" 5 41 "video:720p") ∅ = ([], Ok ∅).
Proof.
  refine (main_update_drops_callback (fun r => r) 0 "cb" 5 41 "video:720p" ∅ _).
  left. reflexivity.
Defined.

(** X14.  One turn of the loop panics on a callback that carries no
    message, before it makes any call, and on no other update.  Every other
    turn, run while no goroutine writes the registry, returns, neither adds
    nor removes a session, and changes nothing of a stored session but its
    [IsAudio] flag. *)
Theorem main_update_keeps_sessions (lower_case : Z -> Z) (editedMsgID : Z)
    (update : Update) (urlCache : gmap string Download) :
  match update with
  | CallbackWithoutMessage _ _ =>
      main_update lower_case editedMsgID update urlCache = ([], Panic)
  | _ =>
      exists registry,
        result (main_update lower_case editedMsgID update urlCache) = Ok registry /\
        dom registry = dom urlCache /\
        forall key after,
          registry !! key = Some after ->
          exists before,
            urlCache !! key = Some before /\
            after = set_IsAudio before (IsAudio after)
  end.
Proof.
  assert (Hsame : forall key (after : Download),
            urlCache !! key = Some after ->
            exists before, urlCache !! key = Some before /\
                           after = set_IsAudio before (IsAudio after)).
  { intros key after H. exists after. split; [exact H |]. destruct after; reflexivity. }
  destruct update as [chatID command text | callbackID chatID messageID data
                      | callbackID data |].
  - exists urlCache. split; [| split; [reflexivity | exact Hsame]].
    unfold main_update. destruct (String.eqb command "start"); [reflexivity |].
    destruct (negb (String.eqb text "")); [| reflexivity].
    destruct (isValidURL text); reflexivity.
  - destruct (urlCache !! getCacheKey chatID messageID) as [info|] eqn:Hinfo.
    + destruct (strings.Split data ":") as [|a [|b [|c fields]]] eqn:Hsplit.
      1, 2, 4: exists urlCache; split; [| split; [reflexivity | exact Hsame]];
        unfold main_update; rewrite Hinfo, Hsplit; reflexivity.
      destruct (main_update_callback lower_case editedMsgID callbackID chatID
                  messageID data a b urlCache info Hinfo Hsplit) as [text Hrun].
      rewrite Hrun. eexists. split; [reflexivity | split].
      * rewrite dom_insert_L. apply subseteq_union_1_L, singleton_subseteq_l.
        apply (elem_of_dom_2 _ _ _ Hinfo).
      * intros key after Hafter.
        destruct (decide (getCacheKey chatID messageID = key)) as [<- | Hne].
        -- rewrite lookup_insert_eq in Hafter. injection Hafter as <-.
           exists info. split; [exact Hinfo | reflexivity].
        -- rewrite lookup_insert_ne in Hafter by exact Hne. apply Hsame, Hafter.
    + exists urlCache. split; [| split; [reflexivity | exact Hsame]].
      unfold main_update. rewrite Hinfo. reflexivity.
  - reflexivity.
  - exists urlCache. split; [reflexivity | split; [reflexivity | exact Hsame]].
Qed.

(** X15.  A callback whose data is two fields, the first neither [video] nor
    [audio], is acknowledged and the message is edited to show the download
    as processing, but no goroutine is started. *)
Theorem main_update_unknown_format (lower_case : Z -> Z) (editedMsgID : Z)
    (callbackID : string) (chatID messageID : Z) (data format quality : string)
    (urlCache : gmap string Download) (info : Download) :
  urlCache !! getCacheKey chatID messageID = Some info ->
  strings.Split data ":" = [format; quality] ->
  format <> "video" -> format <> "audio" ->
  let run := main_update lower_case editedMsgID
               (CallbackUpdate callbackID chatID messageID data) urlCache in
  existsb isGo (trace run) = false /\
  exists text,
    trace run = [AnswerCallback callbackID "Processing download...";
                 EditTextClearKeyboard chatID messageID text].
Proof.
  intros Hinfo Hsplit Hv Ha. cbv zeta.
  destruct (main_update_callback lower_case editedMsgID callbackID chatID messageID
              data format quality urlCache info Hinfo Hsplit) as [text Hrun].
  rewrite Hrun. apply String.eqb_neq in Hv, Ha. rewrite Hv, Ha.
  split; [reflexivity | exists text; reflexivity].
Qed.

Lemma main_update_unknown_format_witness :
  existsb isGo
    (trace (main_update (fun r => r) 0 (CallbackUpdate "cb" 5 41 "photo:best")
              (<[getCacheKey 5 41 := sample_info]> ∅))) = false.
Proof.
  refine (proj1 (main_update_unknown_format (fun r => r) 0 "cb" 5 41 "photo:best"
                   "photo" "best" (<[getCacheKey 5 41 := sample_info]> ∅) sample_info
                   _ _ _ _)).
  - apply lookup_insert_eq.
  - reflexivity.
  - intros H. discriminate H.
  - intros H. discriminate H.
Defined.

(** ** From the options message to the job *)

Lemma keyboard_buttons (platform : string) (row : list (string * string))
    (label data : string) :
  In row (createDownloadKeyboard platform) -> In (label, data) row ->
  In data ["video:360p"; "video:480p"; "video:720p"; "video:medium"; "video:best";
           "audio:mp3"].
Proof.
  unfold createDownloadKeyboard. intros Hrow Hbutton.
  destruct (String.eqb platform "YouTube");
    [| destruct (String.eqb platform "Instagram" || String.eqb platform "Facebook" ||
                 String.eqb platform "TikTok")];
    cbn [In] in Hrow;
    repeat (destruct Hrow as [<- | Hrow]; [cbn [In] in Hbutton |]);
    try contradiction;
    repeat (destruct Hbutton as [Hbutton | Hbutton];
            [injection Hbutton as _ <-; cbn [In]; tauto |]);
    contradiction.
Qed.

(** X16.  Every button of the options message starts its job: after
    [main_func1] has stored the session under the identifier of the sent
    message (not 0), the callback of any button of that message's keyboard
    starts the video handler with the quality of the button, or the audio
    handler, for the session of the submitted URL. *)
Theorem button_starts_job (lower_case : Z -> Z) (editedMsgID : Z)
    (callbackID : string) (chatID : Z) (url platform title thumbnail : string)
    (sentMsgID : Z) (urlCache registry : gmap string Download)
    (row : list (string * string)) (label data : string) :
  sentMsgID <> 0 ->
  result (main_func1 chatID url platform (title, thumbnail) sentMsgID urlCache)
    = Ok registry ->
  In row (createDownloadKeyboard platform) -> In (label, data) row ->
  let info := {| URL := url; Platform := platform; Title := title;
                 Thumbnail := thumbnail; Progress := 0; IsAudio := false |} in
  let calls := trace (main_update lower_case editedMsgID
                        (CallbackUpdate callbackID chatID sentMsgID data) registry) in
  exists quality,
    (data = "video:" +:+ quality /\
     In (GoVideo chatID info quality editedMsgID) calls) \/
    (data = "audio:" +:+ quality /\
     In (GoAudio chatID (set_IsAudio info true) editedMsgID) calls).
Proof.
  intros Hsent Hres Hrow Hbutton info calls. subst calls.
  rewrite main_func1_result in Hres. injection Hres as <-. fold info.
  assert (Hkeys : getCacheKey chatID 0 <> getCacheKey chatID sentMsgID).
  { intros H. apply getCacheKey_inj in H. congruence. }
  match goal with
  | |- context [main_update _ _ _ ?reg] =>
      assert (Hinfo : reg !! getCacheKey chatID sentMsgID = Some info)
        by (rewrite lookup_delete_ne by exact Hkeys; apply lookup_insert_eq);
      set (stored := reg) in *
  end.
  pose proof (keyboard_buttons platform row label data Hrow Hbutton) as Hdata.
  cbn [In] in Hdata.
  destruct Hdata as [<- | [<- | [<- | [<- | [<- | [<- | []]]]]]].
  1: exists "360p". 2: exists "480p". 3: exists "720p".
  4: exists "medium". 5: exists "best". 6: exists "mp3".
  1-5: left; split; [reflexivity |].
  6: right; split; [reflexivity |].
  all: match goal with
       | |- In _ (trace (main_update _ _ (CallbackUpdate _ _ _ ?d) _)) =>
           destruct (main_update_callback lower_case editedMsgID callbackID chatID
                       sentMsgID d _ _ stored info Hinfo eq_refl) as [text ->]
       end;
       unfold trace; cbn [fst app In String.eqb Ascii.eqb Bool.eqb]; tauto.
Qed.

Lemma button_starts_job_witness :
  In (GoVideo 5 {| URL := "https://youtu.be/abc"; Platform := "YouTube";
                   Title := "Sample Title"; Thumbnail := ""; Progress := 0;
                   IsAudio := false |} "720p" 42)
     (trace (main_update (fun r => r) 42 (CallbackUpdate "cb" 5 41 "video:720p")
               (delete (getCacheKey 5 0)
                  (<[getCacheKey 5 41 :=
                       {| URL := "https://youtu.be/abc"; Platform := "YouTube";
                          Title := "Sample Title"; Thumbnail := ""; Progress := 0;
                          IsAudio := false |}]>
                     (<[getCacheKey 5 0 :=
                          {| URL := "https://youtu.be/abc"; Platform := "YouTube";
                             Title := "Sample Title"; Thumbnail := ""; Progress := 0;
                             IsAudio := false |}]> ∅))))).
Proof.
  destruct (button_starts_job (fun r => r) 42 "cb" 5 "https://youtu.be/abc" "YouTube"
              "Sample Title" "" 41 ∅ _ [("📹 720p", "video:720p")] "📹 720p"
              "video:720p" ltac:(lia)
              (main_func1_result 5 "https://youtu.be/abc" "YouTube" "Sample Title" ""
                 41 ∅)
              ltac:(right; left; reflexivity) ltac:(left; reflexivity))
    as [quality [[Hq Hin] | [Hq _]]].
  - apply (append_inj_l "video:") in Hq. subst quality. exact Hin.
  - discriminate Hq.
Defined.

(** X17.  The qualities that the keyboards offer are all known to the format
    selection: for no button does it fall to [best[ext=mp4]/best], and it
    answers [best] only for the keyboard of the remaining platforms. *)
Theorem keyboard_qualities_selected (platform : string)
    (row : list (string * string)) (label quality : string) :
  In row (createDownloadKeyboard platform) ->
  In (label, "video:" +:+ quality) row ->
  videoFormatCode platform quality <> "best[ext=mp4]/best" /\
  (videoFormatCode platform quality = "best" ->
   ~ In platform ["YouTube"; "Instagram"; "Facebook"; "TikTok"]).
Proof.
  unfold createDownloadKeyboard, videoFormatCode.
  destruct (String.eqb_spec platform "YouTube") as [-> | Hy].
  - intros Hrow Hbutton. cbn [In] in Hrow.
    repeat (destruct Hrow as [<- | Hrow]; [cbn [In] in Hbutton |]);
      try contradiction;
      repeat (destruct Hbutton as [Hbutton | Hbutton];
              [apply pair_equal_spec in Hbutton as [_ Hq];
               first [ discriminate Hq
                     | apply (append_inj_l "video:" _ quality) in Hq; subst quality;
                       split; [discriminate | intros H; discriminate H] ] |]);
      contradiction.
  - destruct (String.eqb_spec platform "Instagram") as [-> | Hi];
      [| destruct (String.eqb_spec platform "Facebook") as [-> | Hf];
         [| destruct (String.eqb_spec platform "TikTok") as [-> | Ht]]];
      cbn [orb]; intros Hrow Hbutton; cbn [In] in Hrow;
      repeat (destruct Hrow as [<- | Hrow]; [cbn [In] in Hbutton |]);
      try contradiction;
      repeat (destruct Hbutton as [Hbutton | Hbutton];
              [apply pair_equal_spec in Hbutton as [_ Hq];
               first [ discriminate Hq
                     | apply (append_inj_l "video:" _ quality) in Hq; subst quality;
                       split; [discriminate | intros H; try discriminate H] ] |]);
      try contradiction.
    intros [H' | [H' | [H' | [H' | []]]]]; congruence.
Qed.

Lemma keyboard_qualities_selected_witness :
  videoFormatCode "TikTok" "medium" <> "best[ext=mp4]/best".
Proof.
  refine (proj1 (keyboard_qualities_selected "TikTok"
                   [("📹 Medium Quality Only", "video:medium")]
                   "📹 Medium Quality Only" "medium" _ _)).
  - left. reflexivity.
  - left. reflexivity.
Defined.

(** ** Goroutines of one conversation *)

(** What a key holds after a list of operations is decided by the last
    operation on it. *)
Lemma apply_in_order_last_on (key : string) (ops : list RegOp)
    (m : gmap string Download) :
  apply_in_order ops m !! key =
  match last_on key ops with
  | Some (Store _ info) => Some info
  | Some (Drop _) => None
  | None => m !! key
  end.
Proof.
  revert m. induction ops as [|op ops IH]; intros m; [reflexivity |].
  change (apply_in_order (op :: ops) m) with (apply_in_order ops (apply_op m op)).
  rewrite IH. cbn [last_on]. destruct (last_on key ops) as [later|]; [reflexivity |].
  destruct (String.eqb_spec (op_key op) key) as [Hk | Hk].
  - destruct op as [k i | k]; cbn [op_key apply_op] in *; subst k.
    + apply lookup_insert_eq.
    + apply lookup_delete_eq.
  - apply apply_op_other, Hk.
Qed.

(** The last operation on a key in an interleaving is the last one of either
    side, and there is one if either side has one. *)
Lemma interleaving_last_on (key : string) (mine others merged : list RegOp) :
  interleaving mine others merged ->
  (last_on key merged = last_on key mine \/ last_on key merged = last_on key others) /\
  (last_on key merged = None ->
   last_on key mine = None /\ last_on key others = None).
Proof.
  induction 1 as [| op mine others merged _ [IHor IHnone]
                  | op mine others merged _ [IHor IHnone]].
  - split; [left; reflexivity | intros _; split; reflexivity].
  - cbn [last_on]. destruct (last_on key merged) as [later|] eqn:Hm.
    + split; [| intros H; discriminate H].
      destruct IHor as [<- | <-]; [left | right]; reflexivity.
    + destruct (IHnone eq_refl) as [-> ->].
      split; [left; reflexivity | intros H; rewrite H; split; reflexivity].
  - cbn [last_on]. destruct (last_on key merged) as [later|] eqn:Hm.
    + split; [| intros H; discriminate H].
      destruct IHor as [<- | <-]; [left | right]; reflexivity.
    + destruct (IHnone eq_refl) as [-> ->].
      split; [right; reflexivity | intros H; rewrite H; split; reflexivity].
Qed.

(** When the writes of two goroutines of one conversation are carried out
    one at a time, in whatever order, each session ends under its own
    permanent key and the provisional key, which they share, ends empty. *)
Lemma two_fetches_in_order (chatID : Z) (a b : Download) (sentA sentB : Z)
    (merged : list RegOp) (urlCache : gmap string Download) :
  sentA <> 0 -> sentB <> 0 -> sentA <> sentB ->
  interleaving (main_func1_ops chatID a sentA) (main_func1_ops chatID b sentB) merged ->
  apply_in_order merged urlCache !! getCacheKey chatID 0 = None /\
  apply_in_order merged urlCache !! getCacheKey chatID sentA = Some a /\
  apply_in_order merged urlCache !! getCacheKey chatID sentB = Some b.
Proof.
  intros HA HB HAB Hint.
  assert (HkA : getCacheKey chatID 0 <> getCacheKey chatID sentA)
    by (intros H; apply getCacheKey_inj in H; congruence).
  assert (HkB : getCacheKey chatID 0 <> getCacheKey chatID sentB)
    by (intros H; apply getCacheKey_inj in H; congruence).
  assert (HkAB : getCacheKey chatID sentA <> getCacheKey chatID sentB)
    by (intros H; apply getCacheKey_inj in H; congruence).
  assert (Hlast : forall info sent,
            last_on (getCacheKey chatID 0) (main_func1_ops chatID info sent) =
            Some (Drop (getCacheKey chatID 0))).
  { intros info sent. unfold main_func1_ops. cbn [last_on op_key].
    rewrite String.eqb_refl. reflexivity. }
  assert (Hown : forall info sent key,
            key <> getCacheKey chatID 0 -> key <> getCacheKey chatID sent ->
            Forall (fun op => op_key op <> key) (main_func1_ops chatID info sent)).
  { intros info sent key H0 H1. unfold main_func1_ops.
    repeat constructor; cbn [op_key]; congruence. }
  assert (Hmine : forall info sent, sent <> 0 ->
            apply_in_order (main_func1_ops chatID info sent) urlCache
              !! getCacheKey chatID sent = Some info).
  { intros info sent Hs. unfold main_func1_ops, apply_in_order.
    cbn [fold_left apply_op].
    rewrite lookup_delete_ne, lookup_insert_eq; [reflexivity |].
    intros H; apply getCacheKey_inj in H; congruence. }
  split; [| split].
  - rewrite apply_in_order_last_on.
    destruct (interleaving_last_on (getCacheKey chatID 0) _ _ _ Hint) as [[H | H] _];
      rewrite H, Hlast; reflexivity.
  - rewrite (interleaving_lookup _ _ _ _ Hint) by (apply Hown; congruence).
    apply Hmine, HA.
  - assert (Hsym : interleaving (main_func1_ops chatID b sentB)
                                (main_func1_ops chatID a sentA) merged).
    { clear - Hint. induction Hint; constructor; assumption. }
    rewrite (interleaving_lookup _ _ _ _ Hsym) by (apply Hown; congruence).
    apply Hmine, HB.
Qed.

Lemma completed_instants (ops : list RegOp) : completed (instants ops) = ops.
Proof.
  induction ops as [|op ops IH]; [reflexivity |].
  cbn [instants flat_map app completed]. f_equal. exact IH.
Qed.

(** The writes that a schedule of two goroutines leaves are the writes of
    the two, each in program order. *)
Lemma interleaving_completed (mine others merged : list Instant) :
  interleaving mine others merged ->
  interleaving (completed mine) (completed others) (completed merged).
Proof.
  induction 1 as [| x mine others merged _ IH | x mine others merged _ IH].
  - constructor.
  - destruct x as [op | op]; cbn [completed]; [exact IH | constructor; exact IH].
  - destruct x as [op | op]; cbn [completed]; [exact IH | constructor; exact IH].
Qed.

(** A schedule that the runtime lets finish has carried out its writes one
    at a time, in the order in which they were left. *)
Lemma run_schedule_finished (schedule : list Instant) (writing : bool)
    (urlCache registry : gmap string Download) :
  run_schedule schedule writing urlCache = Finished registry ->
  registry = apply_in_order (completed schedule) urlCache.
Proof.
  revert writing urlCache.
  induction schedule as [|[op | op] schedule IH]; intros writing urlCache H.
  - injection H as <-. reflexivity.
  - cbn [run_schedule] in H. destruct writing; [discriminate H |].
    cbn [completed]. exact (IH _ _ H).
  - cbn [run_schedule] in H. destruct writing; [| discriminate H].
    cbn [completed]. exact (IH _ _ H).
Qed.

(** *** No [delete] on an empty registry *)

Lemma interleaving_split {A : Type} (before after : list A) :
  forall mine others,
    interleaving mine others (before ++ after) ->
    exists mine1 mine2 others1 others2,
      mine = mine1 ++ mine2 /\ others = others1 ++ others2 /\
      interleaving mine1 others1 before /\ interleaving mine2 others2 after.
Proof.
  induction before as [|x before IH]; intros mine others H.
  - exists [], mine, [], others. repeat split; [constructor | exact H].
  - cbn [app] in H. inversion H as [| y m o mg Hrest | y m o mg Hrest]; subst.
    + destruct (IH _ _ Hrest) as [m1 [m2 [o1 [o2 [-> [-> [H1 H2]]]]]]].
      exists (x :: m1), m2, o1, o2. repeat split; [constructor; exact H1 | exact H2].
    + destruct (IH _ _ Hrest) as [m1 [m2 [o1 [o2 [-> [-> [H1 H2]]]]]]].
      exists m1, m2, (x :: o1), o2. repeat split; [constructor; exact H1 | exact H2].
Qed.

Lemma last_on_In (key : string) (ops : list RegOp) (op : RegOp) :
  last_on key ops = Some op -> In op ops /\ op_key op = key.
Proof.
  induction ops as [|o ops IH]; [discriminate |].
  cbn [last_on]. destruct (last_on key ops) as [later|].
  - intros H. injection H as <-. destruct (IH eq_refl) as [Hin Hk].
    split; [right; exact Hin | exact Hk].
  - destruct (String.eqb_spec (op_key o) key) as [Hk | Hk]; [| discriminate].
    intros H. injection H as <-. split; [left; reflexivity | exact Hk].
Qed.

Lemma completed_app (xs ys : list Instant) :
  completed (xs ++ ys) = completed xs ++ completed ys.
Proof.
  induction xs as [|[op | op] xs IH]; cbn [app completed]; [reflexivity | exact IH |].
  rewrite IH. reflexivity.
Qed.

(** The goroutine that is about to enter its [delete] has left the store of
    its permanent key. *)
Lemma before_the_drop (chatID : Z) (info : Download) (sent : Z) (key : string)
    (done rest : list Instant) :
  instants (main_func1_ops chatID info sent) = done ++ Enter (Drop key) :: rest ->
  completed done = [Store (getCacheKey chatID 0) info;
                    Store (getCacheKey chatID sent) info].
Proof.
  unfold main_func1_ops. cbn [instants flat_map app]. intros H.
  destruct done as [|i0 [|i1 [|i2 [|i3 [|i4 [|i5 [|i6 done]]]]]]];
    cbn [app] in H;
    repeat match type of H with
    | ?x :: ?l = ?y :: ?l' =>
        let Hh := fresh "Hh" in
        let Ht := fresh "Ht" in
        assert (Hh : x = y) by (apply (f_equal (hd x)) in H; exact H);
        assert (Ht : l = l') by (apply (f_equal (@tl _)) in H; exact H);
        clear H; rename Ht into H; try discriminate Hh
    end;
    try discriminate H.
  subst. reflexivity.
Qed.

(** At no schedule of two metadata goroutines is a [delete] entered on an
    empty registry: the goroutine has stored its session under the permanent
    key, which no write of the program removes. *)
Lemma drop_enters_nonempty (chatID : Z) (a b : Download) (sentA sentB : Z)
    (urlCache registry : gmap string Download) (key : string)
    (before after : list Instant) :
  sentA <> 0 -> sentB <> 0 ->
  interleaving (instants (main_func1_ops chatID a sentA))
               (instants (main_func1_ops chatID b sentB))
               (before ++ Enter (Drop key) :: after) ->
  run_schedule before false urlCache = Finished registry ->
  registry <> ∅.
Proof.
  intros HA HB Hint Hrun.
  apply run_schedule_finished in Hrun. subst registry.
  destruct (interleaving_split _ _ _ _ Hint)
    as [doneA [restA [doneB [restB [HeqA [HeqB [Hbefore Hafter]]]]]]].
  apply interleaving_completed in Hbefore.
  assert (Hstored : forall info sent (mine others : list Instant) rest,
            sent <> 0 ->
            instants (main_func1_ops chatID info sent) = mine ++ Enter (Drop key) :: rest ->
            (forall op, In op (completed others) ->
               exists i s, In op (main_func1_ops chatID i s)) ->
            (interleaving (completed mine) (completed others) (completed before) \/
             interleaving (completed others) (completed mine) (completed before)) ->
            apply_in_order (completed before) urlCache <> ∅).
  { intros info sent mine others rest Hs Heq Hothers Hmerged.
    apply before_the_drop in Heq.
    assert (Hkey : getCacheKey chatID 0 <> getCacheKey chatID sent)
      by (intros H; apply getCacheKey_inj in H; congruence).
    assert (Hlast : exists i, last_on (getCacheKey chatID sent) (completed before)
                              = Some (Store (getCacheKey chatID sent) i)).
    { assert (Hmine : last_on (getCacheKey chatID sent) (completed mine) =
                      Some (Store (getCacheKey chatID sent) info)).
      { rewrite Heq. cbn [last_on op_key]. rewrite String.eqb_refl. reflexivity. }
      assert (Hor : last_on (getCacheKey chatID sent) (completed before) =
                      last_on (getCacheKey chatID sent) (completed mine) \/
                    last_on (getCacheKey chatID sent) (completed before) =
                      last_on (getCacheKey chatID sent) (completed others) /\
                    last_on (getCacheKey chatID sent) (completed before) <> None).
      { destruct Hmerged as [Hm | Hm];
          destruct (interleaving_last_on (getCacheKey chatID sent) _ _ _ Hm)
            as [[H | H] Hnone]; [left; exact H | right | right | left; exact H];
          (split; [exact H |]); intros Hn; destruct (Hnone Hn) as [H1 H2];
          rewrite Hmine in *; discriminate. }
      destruct Hor as [-> | [Hsame Hsome]]; [exists info; exact Hmine |].
      destruct (last_on (getCacheKey chatID sent) (completed before)) as [op|] eqn:Hop;
        [| contradiction].
      symmetry in Hsame. apply last_on_In in Hsame as [Hin Hk].
      destruct (Hothers op Hin) as [i [s Hop']].
      unfold main_func1_ops in Hop'. cbn [In] in Hop'.
      destruct Hop' as [<- | [<- | [<- | []]]]; cbn [op_key] in Hk.
      - congruence.
      - rewrite Hk. exists i. reflexivity.
      - congruence. }
    destruct Hlast as [i Hlast]. intros Hempty.
    pose proof (apply_in_order_last_on (getCacheKey chatID sent) (completed before)
                  urlCache) as Hlook.
    rewrite Hlast, Hempty, lookup_empty in Hlook. discriminate Hlook. }
  assert (Hpart : forall info sent (done rest : list Instant),
            instants (main_func1_ops chatID info sent) = done ++ rest ->
            forall op, In op (completed done) ->
              exists i s, In op (main_func1_ops chatID i s)).
  { intros info sent done rest Heq op Hin. exists info, sent.
    rewrite <- (completed_instants (main_func1_ops chatID info sent)), Heq, completed_app.
    apply in_or_app. left. exact Hin. }
  inversion Hafter as [| x m o mg Hrest | x m o mg Hrest]; subst.
  - apply (Hstored a sentA doneA doneB m HA HeqA (Hpart _ _ _ _ HeqB)).
    left. exact Hbefore.
  - apply (Hstored b sentB doneB doneA o HB HeqB (Hpart _ _ _ _ HeqA)).
    right. exact Hbefore.
Qed.



(** ** The metadata fetch *)

Lemma Split_fields_clean (c : ascii) (s : string) :
  Forall (fun f => countByte c f = O) (strings.Split s (String c EmptyString)).
Proof.
  induction s as [|x s IH]; [repeat constructor |].
  rewrite Split_cons. destruct (Ascii.eqb x c) eqn:Hx.
  - constructor; [reflexivity | exact IH].
  - destruct (strings.Split s (String c "")) as [|f fs];
      cbn [strings.cons_field].
    + repeat constructor. cbn [countByte]. rewrite Hx. reflexivity.
    + apply Forall_cons in IH as [Hf Hfs]. constructor; [| exact Hfs].
      cbn [countByte]. rewrite Hx, Hf. reflexivity.
Qed.

(** X19.  Whatever the tool printed, the title and the thumbnail that
    [getVideoInfo] returns hold no line break; a thumbnail is returned only
    together with the line before it, and after an error the title is the
    fallback and the thumbnail is empty. *)
Theorem getVideoInfo_lines (TrimSpace : string -> string) (output : string)
    (err : bool) :
  let info := getVideoInfo TrimSpace output err in
  countByte (ascii_of_nat 10) (fst info) = O /\
  countByte (ascii_of_nat 10) (snd info) = O /\
  (snd info <> "" ->
   err = false /\
   exists rest,
     strings.Split (TrimSpace output) fmt.newline = fst info :: snd info :: rest) /\
  (err = true -> info = ("Unknown Title", "")).
Proof.
  cbv zeta. unfold getVideoInfo. destruct err.
  - cbn [fst snd].
    split; [reflexivity | split; [reflexivity | split; [| reflexivity]]].
    intros Hthumb. contradiction Hthumb. reflexivity.
  - pose proof (Split_fields_clean (ascii_of_nat 10) (TrimSpace output)) as Hclean.
    change (String (ascii_of_nat 10) "") with fmt.newline in Hclean.
    destruct (strings.Split (TrimSpace output) fmt.newline) as [|l0 [|l1 rest]];
      cbn [fst snd].
    + split; [reflexivity | split; [reflexivity | split]].
      * intros Hthumb. contradiction Hthumb. reflexivity.
      * intros Herr. discriminate Herr.
    + apply Forall_cons in Hclean as [H0 _].
      split; [exact H0 | split; [reflexivity | split]].
      * intros Hthumb. contradiction Hthumb. reflexivity.
      * intros Herr. discriminate Herr.
    + apply Forall_cons in Hclean as [H0 Hclean].
      apply Forall_cons in Hclean as [H1 _].
      split; [exact H0 | split; [exact H1 | split]].
      * intros _. split; [reflexivity | exists rest; reflexivity].
      * intros Herr. discriminate Herr.
Qed.

(** ** More on the classifier *)

Lemma append_assoc (a b c : string) : (a +:+ b) +:+ c = a +:+ (b +:+ c).
Proof.
  induction a as [|x a IH]; [reflexivity |].
  change (String x ((a +:+ b) +:+ c) = String x (a +:+ (b +:+ c))).
  rewrite IH. reflexivity.
Qed.

Lemma prefix_elim (f s : string) :
  String.prefix f s = true -> exists q, s = f +:+ q.
Proof.
  revert s. induction f as [|a f IH]; intros s H.
  - exists s. reflexivity.
  - destruct s as [|c s]; [discriminate H |].
    apply prefix_cons in H as [-> H]. destruct (IH s H) as [q ->].
    exists q. reflexivity.
Qed.

Lemma prefix_append (f q : string) : String.prefix f (f +:+ q) = true.
Proof.
  induction f as [|a f IH]; [apply prefix_nil |].
  change (String a f +:+ q) with (String a (f +:+ q)).
  apply prefix_cons. split; [reflexivity | exact IH].
Qed.

Lemma prefix_Contains (f s : string) :
  String.prefix f s = true -> strings.Contains s f = true.
Proof.
  intros H. destruct s; cbn [strings.Contains]; rewrite H; reflexivity.
Qed.

(** A string that contains a word contains the end of the word. *)
Lemma Contains_word_end (a b s : string) :
  strings.Contains s (a +:+ b) = true -> strings.Contains s b = true.
Proof.
  induction s as [|c s IH]; intros H.
  - cbn [strings.Contains] in H. rewrite orb_false_r in H.
    apply prefix_elim in H as [q H]. rewrite append_assoc in H. rewrite H.
    apply Contains_append_r, prefix_Contains, prefix_append.
  - rewrite Contains_cons in H. apply orb_true_iff in H as [H | H].
    + apply prefix_elim in H as [q H]. rewrite append_assoc in H. rewrite H.
      apply Contains_append_r, prefix_Contains, prefix_append.
    + rewrite Contains_cons, (IH H). apply orb_true_r.
Qed.

(** X20.  The alternative [vm.tiktok.com] of [detectPlatform] never decides:
    the answer is TikTok exactly when the lower-cased URL contains
    [tiktok.com] and none of the fragments of the platforms tested before. *)
Theorem detectPlatform_TikTok (lower_case : Z -> Z) (url : string) :
  let lowerURL := strings.ToLower lower_case url in
  detectPlatform lower_case url = "TikTok" <->
  strings.Contains lowerURL "tiktok.com" = true /\
  existsb (strings.Contains lowerURL)
    ["youtube.com"; "youtu.be"; "instagram.com"; "instagr.am";
     "facebook.com"; "fb.com"; "fb.watch"] = false.
Proof.
  cbv zeta. unfold detectPlatform. cbv zeta. cbn [existsb].
  pose proof (Contains_word_end "vm." "tiktok.com" (strings.ToLower lower_case url))
    as Hvm.
  change ("vm." +:+ "tiktok.com") with "vm.tiktok.com" in Hvm.
  repeat match goal with
  | |- context [strings.Contains (strings.ToLower lower_case url) ?f] =>
      let b := fresh "b" in
      let E := fresh "E" in
      destruct (strings.Contains (strings.ToLower lower_case url) f) eqn:E
  end;
  cbn [orb]; split;
    try (intros H; discriminate H);
    try (intros [H1 H2]; discriminate H1 || discriminate H2);
    try (intros _; split; reflexivity);
    try reflexivity.
  specialize (Hvm eq_refl). discriminate Hvm.
Qed.

(** A valid URL is given one of the four platforms. *)
Lemma valid_detects_known (lower_case : Z -> Z) (url : string) :
  isValidURL url = true ->
  In (detectPlatform lower_case url) ["YouTube"; "Instagram"; "Facebook"; "TikTok"].
Proof.
  intros Hv. apply isValidURL_iff in Hv as [_ [f [Hin Hc]]].
  assert (Hl : strings.Contains (strings.ToLower lower_case url) f = true)
    by (apply ToLower_Contains; [apply validFragments_lower, Hin | exact Hc]).
  unfold detectPlatform. cbv zeta.
  set (l := strings.ToLower lower_case url) in *.
  cbn [In validFragments] in Hin.
  repeat (destruct Hin as [<- | Hin]; [rewrite ?Hl, ?orb_true_r; cbn [orb] |]);
    [.. | contradiction];
    repeat split_if; cbn [In]; tauto.
Qed.

(** X21.  The loop starts a metadata goroutine only for a text that
    [isValidURL] accepts, with the platform that [detectPlatform] gives it,
    which is one of the four: the fallback icon and the fallback keyboard
    with its [video:best] button are never shown for such a session. *)
Theorem fetch_has_known_platform (lower_case : Z -> Z) (editedMsgID : Z)
    (update : Update) (urlCache : gmap string Download)
    (chatID : Z) (url platform : string) :
  In (GoFetch chatID url platform)
     (trace (main_update lower_case editedMsgID update urlCache)) ->
  isValidURL url = true /\
  platform = detectPlatform lower_case url /\
  In platform ["YouTube"; "Instagram"; "Facebook"; "TikTok"] /\
  getPlatformIcon platform <> "🔗" /\
  ~ In [("📹 Best Quality", "video:best")] (createDownloadKeyboard platform).
Proof.
  intros Hgo.
  assert (Hfetch : isValidURL url = true /\ platform = detectPlatform lower_case url).
  { destruct update as [c command text | cb c m data | cb data |].
    - unfold main_update in Hgo. destruct (String.eqb command "start").
      + cbn in Hgo. destruct Hgo as [H | []]. discriminate H.
      + destruct (negb (String.eqb text "")); [| destruct Hgo].
        destruct (isValidURL text) eqn:Hv; cbn in Hgo; destruct Hgo as [H | []].
        * injection H as <- <- <-. split; [exact Hv | reflexivity].
        * discriminate H.
    - destruct (urlCache !! getCacheKey c m) as [info|] eqn:Hinfo.
      + destruct (strings.Split data ":") as [|a [|b [|x fields]]] eqn:Hsplit.
        1, 2, 4: unfold main_update in Hgo; rewrite Hinfo, Hsplit in Hgo;
          destruct Hgo.
        destruct (main_update_callback lower_case editedMsgID cb c m data a b
                    urlCache info Hinfo Hsplit) as [text Hrun].
        rewrite Hrun in Hgo. unfold trace in Hgo. cbn [fst app In] in Hgo.
        destruct Hgo as [H | [H | H]]; try discriminate H.
        destruct (String.eqb a "video"); [| destruct (String.eqb a "audio")];
          cbn [In] in H; try contradiction; destruct H as [H | []]; discriminate H.
      + unfold main_update in Hgo. rewrite Hinfo in Hgo. destruct Hgo.
    - destruct Hgo.
    - destruct Hgo. }
  destruct Hfetch as [Hvalid ->].
  pose proof (valid_detects_known lower_case url Hvalid) as Hknown.
  split; [exact Hvalid | split; [reflexivity | split; [exact Hknown |]]].
  cbn [In] in Hknown.
  destruct Hknown as [<- | [<- | [<- | [<- | []]]]];
    (split; [intros H; discriminate H |]);
    unfold createDownloadKeyboard; cbn [String.eqb Ascii.eqb Bool.eqb orb In];
    intros H; repeat (destruct H as [H | H]; [discriminate H |]); exact H.
Qed.

Lemma fetch_has_known_platform_witness :
  isValidURL "https://youtu.be/abc" = true.
Proof.
  refine (proj1 (fetch_has_known_platform (fun r => r) 0
                   (MessageUpdate 5 "" "https://youtu.be/abc") ∅ 5
                   "https://youtu.be/abc" "YouTube" _)).
  left. vm_compute. reflexivity.
Defined.
